(** * hg-coveo: the [append_jira_commit_message] Mercurial hook

    A shallow embedding of [hooks/append_jira_commit_message.py] and the
    properties of its three parts: the ticket extractor
    [extract_project_and_id], the message formatter [format_message] and the
    commit interceptor [rewrite_ctx] installed by
    [append_jira_commit_message].

    Strings are byte strings, as Mercurial hands them to an in-process hook
    (Python 2 [str]; the hook compares hglib's answers with [str] literals
    and matches a [str] pattern on [ctx.branch()]): a [string] of 8-bit
    [ascii] characters.  On such strings the classes of the pattern are the
    ASCII ones ([\d] is [0-9], [.] is every byte but the newline) and
    [str.strip()] removes the six ASCII white space characters. *)

From Stdlib Require Import Bool Arith Lia ZArith List Ascii String.
Import ListNotations.
Open Scope string_scope.

Set Implicit Arguments.

(** ** Byte strings *)

Module Str.

Definition nl : ascii := "010"%char.
Definition slash : ascii := "/"%char.
Definition hyphen : ascii := "-"%char.

(** [take n s] is the slice [s[:n]], [drop n s] the slice [s[n:]]. *)
Fixpoint take (n : nat) (s : string) : string :=
  match n, s with
  | S n', String c s' => String c (take n' s')
  | _, _ => EmptyString
  end.

Fixpoint drop (n : nat) (s : string) : string :=
  match n, s with
  | S n', String _ s' => drop n' s'
  | _, _ => s
  end.

(** Every character of [s] satisfies [p]. *)
Fixpoint all (p : ascii -> bool) (s : string) : bool :=
  match s with
  | EmptyString => true
  | String c s' => p c && all p s'
  end.

(** [startswith sub s]: [s.startswith(sub)]. *)
Fixpoint startswith (sub s : string) : bool :=
  match sub, s with
  | EmptyString, _ => true
  | String a sub', String b s' => Ascii.eqb a b && startswith sub' s'
  | String _ _, EmptyString => false
  end.

(** [contains sub s]: the Python test [sub in s], a search for [sub] at
    every offset of [s]. *)
Fixpoint contains (sub s : string) : bool :=
  startswith sub s ||
  match s with
  | EmptyString => false
  | String _ s' => contains sub s'
  end.

(** [str.isspace] on one byte: space, and the controls [\t \n \v \f \r]. *)
Definition isspace (c : ascii) : bool :=
  let n := nat_of_ascii c in
  ((n =? 32) || ((9 <=? n) && (n <=? 13)))%nat.

Fixpoint lstrip (s : string) : string :=
  match s with
  | String c s' => if isspace c then lstrip s' else s
  | EmptyString => EmptyString
  end.

Fixpoint rstrip (s : string) : string :=
  match s with
  | String c s' =>
      match rstrip s' with
      | EmptyString => if isspace c then EmptyString else String c EmptyString
      | r => String c r
      end
  | EmptyString => EmptyString
  end.

(** [s.strip()]: white space removed at both ends ([rstrip] alone removes
    it at the end only). *)
Definition strip (s : string) : string := lstrip (rstrip s).

(** [s.split(sep)] for a one-character separator: the list of the
    segments between the occurrences of [sep]; never empty. *)
Fixpoint split (sep : ascii) (s : string) : list string :=
  match s with
  | EmptyString => [EmptyString]
  | String c s' =>
      if Ascii.eqb c sep then EmptyString :: split sep s'
      else match split sep s' with
           | seg :: segs => String c seg :: segs
           | [] => [String c EmptyString]
           end
  end.

End Str.

(** ** Python sequences indexed by an integer *)

Module Py.

(** [l[i]]: a negative index counts from the end, and an index outside
    the list raises [IndexError], here [None]. *)
Definition index {A : Type} (l : list A) (i : Z) : option A :=
  let n := Z.of_nat (List.length l) in
  if (0 <=? i)%Z then nth_error l (Z.to_nat i)
  else if (0 <=? n + i)%Z then nth_error l (Z.to_nat (n + i))
  else None.

End Py.

(** ** The backtracking matcher of the [re] module

    Only the constructs of the hook's pattern are modelled.  The matcher is
    written in continuation-passing style: [k] is what remains to be matched,
    and a greedy construct first tries its longest alternative and falls back
    to a shorter one when the continuation fails, as [re] does. *)

Module Re.

Inductive regex : Type :=
| Bol                               (* ^ *)
| Lit (c : ascii)                   (* one literal character *)
| Star (p : ascii -> bool)          (* x*, x a one-character class *)
| Plus (p : ascii -> bool)          (* x+, x a one-character class *)
| Opt (r : regex)                   (* (r)? *)
| Cat (r1 r2 : regex).              (* r1 r2 *)

(** The classes of the pattern. *)
Definition dot (c : ascii) : bool := negb (Ascii.eqb c Str.nl).      (* . *)
Definition upper (c : ascii) : bool :=                               (* [A-Z] *)
  ((65 <=? nat_of_ascii c) && (nat_of_ascii c <=? 90))%nat.
Definition digit (c : ascii) : bool :=                               (* \d *)
  ((48 <=? nat_of_ascii c) && (nat_of_ascii c <=? 57))%nat.

(** A continuation receives the current offset and the rest of the
    subject, and answers with the offset where the whole match ends. *)
Definition cont : Type := nat -> string -> option nat.

Fixpoint star (p : ascii -> bool) (i : nat) (s : string) (k : cont) : option nat :=
  match s with
  | String c s' =>
      if p c then
        match star p (S i) s' k with
        | Some e => Some e
        | None => k i s
        end
      else k i s
  | EmptyString => k i s
  end.

Fixpoint exec (r : regex) (i : nat) (s : string) (k : cont) : option nat :=
  match r with
  | Bol => if (i =? 0)%nat then k i s else None
  | Lit c =>
      match s with
      | String d s' => if Ascii.eqb c d then k (S i) s' else None
      | EmptyString => None
      end
  | Star p => star p i s k
  | Plus p =>
      match s with
      | String d s' => if p d then star p (S i) s' k else None
      | EmptyString => None
      end
  | Opt r1 =>
      match exec r1 i s k with
      | Some e => Some e
      | None => k i s
      end
  | Cat r1 r2 => exec r1 i s (fun j t => exec r2 j t k)
  end.

(** [re.match]: the pattern is tried at offset 0 only; the answer is the
    end offset of group 0, or [None] when there is no match. *)
Definition rmatch (r : regex) (s : string) : option nat :=
  exec r 0 s (fun j _ => Some j).

(** [match.group(0)]: the matched text. *)
Definition group0 (s : string) (e : nat) : string := Str.take e s.

End Re.

(** ** The extractor *)

(** [re.compile(r"^(.*/)?[A-Z]+-\d+")] *)
Definition jira_regex : Re.regex :=
  Re.Cat Re.Bol
    (Re.Cat (Re.Opt (Re.Cat (Re.Star Re.dot) (Re.Lit Str.slash)))
       (Re.Cat (Re.Plus Re.upper)
          (Re.Cat (Re.Lit Str.hyphen) (Re.Plus Re.digit)))).

(** [match.group(0).split('/')[-1]] on a match, and [''] otherwise.  The
    list of segments is never empty, so [[-1]] is its last element. *)
Definition extract_project_and_id (message : string) : string :=
  match Re.rmatch jira_regex message with
  | Some e => List.last (Str.split Str.slash (Re.group0 message e)) EmptyString
  | None => EmptyString
  end.

(** ** Effects: standard output, host calls and exceptions *)

Inductive event : Type :=
| Print (line : string)           (* print(line): the text and a newline on stdout *)
| CallConfig (names : string)     (* client.config(names) *)
| CallBookmarks.                  (* client.bookmarks() *)

Inductive exn : Type :=
| StopIteration
| CommandError                    (* hglib.error.CommandError *)
| MissingConfig (msg : string)
| IndexError
| SystemExit (code : Z).

(** A computation leaves a trace of events and either raises or returns. *)
Definition M (A : Type) : Type := (list event * (exn + A))%type.

Definition ret {A : Type} (a : A) : M A := ([], inr a).
Definition raise {A : Type} (e : exn) : M A := ([], inl e).
Definition emit (ev : event) : M unit := ([ev], inr tt).

Definition bind {A B : Type} (m : M A) (f : A -> M B) : M B :=
  match m with
  | (tr, inl e) => (tr, inl e)
  | (tr, inr a) => let (tr', r) := f a in ((tr ++ tr')%list, r)
  end.

Declare Scope hook_scope.
Delimit Scope hook_scope with hook.
Notation "x <- m ;; k" := (bind m (fun x => k))
  (at level 61, m at next level, right associativity) : hook_scope.
Notation "m ;; k" := (bind m (fun _ => k))
  (at level 61, right associativity) : hook_scope.
Open Scope hook_scope.

(** The events of [tr], then the computation [m]. *)
Definition after {A : Type} (tr : list event) (m : M A) : M A :=
  ((tr ++ fst m)%list, snd m).

(** What a trace writes on standard output. *)
Fixpoint stdout (tr : list event) : string :=
  match tr with
  | Print line :: tr' => line ++ String Str.nl (stdout tr')
  | _ :: tr' => stdout tr'
  | [] => EmptyString
  end.

Definition print (line : string) : M unit := emit (Print line).

(** A Python string in a condition is true when it is not empty. *)
Definition truthy (s : string) : bool :=
  match s with
  | EmptyString => false
  | String _ _ => true
  end.

Definition NL : string := String Str.nl EmptyString.

(** ** The hook *)

Section Hook.

(** The host's types: the error handler handed to a commit, the result of
    a commit, and the fields of a commit context the hook never reads. *)
Variables E R O : Type.

(** The commit context: [ctx.branch()], the mutable [ctx._text], and the
    rest of the object. *)
Record Ctx : Type := mkCtx {
  branch : string;
  _text : string;
  rest : O
}.

(** The assignment [ctx._text = message]. *)
Definition set_text (ctx : Ctx) (message : string) : Ctx :=
  {| branch := branch ctx; _text := message; rest := rest ctx |}.

(** [repo]: the object whose [commitctx] attribute the hook replaces. *)
Record Repo : Type := mkRepo {
  commitctx : Ctx -> E -> M R
}.

(** One entry of [client.config]: [(section, key, value)]. *)
Definition cfg_entry : Type := (string * string * string)%type.
(** One entry of [client.bookmarks]: [(name, rev, node)]. *)
Definition bookmark : Type := (string * Z * string)%type.

(** The answers of the hglib client opened by the hook: [config] fails
    with [CommandError] or lists the entries of the named section;
    [bookmarks] gives the bookmarks and the index of the active one,
    [-1] when none is. *)
Record Client : Type := mkClient {
  config_reply : string -> exn + list cfg_entry;
  bookmarks_reply : list bookmark * Z
}.

Variable client : Client.

Definition client_config (names : string) : M (list cfg_entry) :=
  emit (CallConfig names) ;; ([], config_reply client names).

Definition client_bookmarks : M (list bookmark * Z) :=
  emit CallBookmarks ;; ret (bookmarks_reply client).

(** [textwrap.dedent] of the help text: the common margin of twelve
    spaces is removed and the last, blank, line is emptied. *)
Definition help_text : string :=
  String.concat NL
    [ "";
      "Append a Jira link to commit messages.";
      "";
      "If the current branch (or bookmark) matches the Jira project,";
      "and if the commit message doesn't already contain it,";
      "a link to the Jira is appended to commit messages.";
      "";
      ".hgrc configuration:";
      "    [jira]";
      "    jira.url = Jira base url, e.g. https://jira.atlassian.com/browse/";
      "" ].

Definition print_help : M unit := print help_text.

(** [next(cfg for cfg in entries if cfg[1] == key)] *)
Fixpoint next_with_key (key : string) (entries : list cfg_entry) : M cfg_entry :=
  match entries with
  | cfg :: entries' =>
      if String.eqb (snd (fst cfg)) key then ret cfg
      else next_with_key key entries'
  | [] => raise StopIteration
  end.

Definition missing (key : string) : exn :=
  MissingConfig ("Missing configuration key '" ++ key ++ "'").

(** [get_config]: [StopIteration] and [CommandError] become
    [MissingConfig]; any other exception passes.  The test [not cfg] is
    on a 3-tuple, which is never false. *)
Definition get_config (key : string) : M string :=
  match (entries <- client_config "jira" ;; next_with_key key entries) with
  | (tr, inl StopIteration) => (tr, inl (missing key))
  | (tr, inl CommandError) => (tr, inl (missing key))
  | (tr, inl e) => (tr, inl e)
  | (tr, inr cfg) => (tr, inr (snd cfg))
  end.

Section Closures.

(** The two values the closures capture. *)
Variable jira_url_base : string.
Variable original : Ctx -> E -> M R.

Definition format_message (message jira whence : string) : M string :=
  let jira_link := jira_url_base ++ "/" ++ jira in
  if Str.contains jira_link message then ret message
  else
    print (NL ++ "Appended JIRA '" ++ jira_link
              ++ "' to commit message (detected from " ++ whence ++ ")." ++ NL) ;;
    ret (Str.strip message ++ NL ++ NL ++ jira_link ++ NL).

Definition rewrite_ctx (ctx : Ctx) (error : E) : M R :=
  let branch_name := branch ctx in
  let commit_message := _text ctx in
  let found := extract_project_and_id branch_name in
  commit_message <-
    (if truthy found then format_message commit_message found "branch name"
     else
       reply <- client_bookmarks ;;
       let (bookmarks, active) := reply in
       if negb (active =? -1)%Z then
         match Py.index bookmarks active with
         | None => raise IndexError
         | Some entry =>
             let bookmark_name := fst (fst entry) in
             let found := extract_project_and_id bookmark_name in
             if truthy found
             then format_message commit_message found "bookmark name"
             else ret commit_message
         end
       else ret commit_message) ;;
  original (set_text ctx commit_message) error.

End Closures.

(** The outcome of installing the hook: the repository object as the
    hook leaves it, and what the call did. *)
Record installed : Type := mkInstalled {
  repo_after : Repo;
  outcome : M unit
}.

Definition append_jira_commit_message (repo : Repo) : installed :=
  let commitctx0 := commitctx repo in
  match get_config "jira.url" with
  | (tr, inr jira_url_base) =>
      {| repo_after := {| commitctx := rewrite_ctx jira_url_base commitctx0 |};
         outcome := (tr, inr tt) |}
  | (tr, inl (MissingConfig err)) =>
      {| repo_after := repo;
         outcome := after tr (print ("ERROR: " ++ err) ;; print_help ;;
                              raise (SystemExit 1)) |}
  | (tr, inl e) =>
      {| repo_after := repo; outcome := (tr, inl e) |}
  end.

End Hook.

(** ** The properties the specification words

    These definitions follow the specification, not the code; the theorems
    below compare them with the code. *)

Module Spec.

(** [sub] occurs verbatim somewhere in [s]. *)
Definition occurs (sub s : string) : Prop :=
  exists a b, s = a ++ sub ++ b.

(** [PROJECT-ID]: one or more uppercase ASCII letters, a hyphen, one or
    more ASCII digits. *)
Definition is_ticket (t : string) : Prop :=
  exists project id,
    t = project ++ "-" ++ id /\
    project <> "" /\ Str.all Re.upper project = true /\
    id <> "" /\ Str.all Re.digit id = true.

(** Empty, or anything ended by a slash. *)
Definition is_prefix (pre : string) : Prop :=
  pre = "" \/ exists q, pre = q ++ "/".

(** [s] matches [^(prefix/)?[A-Z]+-[0-9]+]: an optional slash-terminated
    prefix, then a ticket, then any text. *)
Definition matches_pattern (s : string) : Prop :=
  exists pre t trailing,
    s = pre ++ t ++ trailing /\ is_prefix pre /\ is_ticket t.

(** The longest run of characters of class [p] that starts [s], and what
    follows it. *)
Fixpoint span (p : ascii -> bool) (s : string) : string :=
  match s with
  | String c s' => if p c then String c (span p s') else EmptyString
  | EmptyString => EmptyString
  end.

Fixpoint skip (p : ascii -> bool) (s : string) : string :=
  match s with
  | String c s' => if p c then skip p s' else s
  | EmptyString => EmptyString
  end.

(** The ticket that starts [t], if one does: all the uppercase letters
    there, a hyphen, all the digits that follow. *)
Definition leading_ticket (t : string) : option string :=
  let project := span Re.upper t in
  match skip Re.upper t with
  | String c t' =>
      let id := span Re.digit t' in
      if Ascii.eqb c Str.hyphen && truthy project && truthy id
      then Some (project ++ "-" ++ id)
      else None
  | EmptyString => None
  end.

(** [s] is cut into a prefix the pattern's [(.*/)?] can take (empty, or
    ended by a slash and within the first line) and a text that starts
    with a ticket. *)
Definition cut (s pre t : string) : Prop :=
  s = pre ++ t /\ is_prefix pre /\ Str.all Re.dot pre = true /\
  leading_ticket t <> None.

(** The cut of [s] with the longest prefix. *)
Definition longest_cut (s pre t : string) : Prop :=
  cut s pre t /\
  forall pre' t', cut s pre' t' -> String.length pre' <= String.length pre.

(** The hglib contract of [client.bookmarks()]: the index of the active
    bookmark is [-1] or that of an entry of the list. *)
Definition host_ok (client : Client) : Prop :=
  let (bookmarks, active) := bookmarks_reply client in
  (active = -1 \/ 0 <= active < Z.of_nat (List.length bookmarks))%Z.

(** The ticket reference of a commit: that of the branch name, or failing
    that, that of the name of the active bookmark; empty when there is
    none. *)
Definition reference {O : Type} (client : Client) (ctx : Ctx O) : string :=
  let from_branch := extract_project_and_id (branch ctx) in
  if truthy from_branch then from_branch
  else
    let (bookmarks, active) := bookmarks_reply client in
    if (active =? -1)%Z then ""
    else match Py.index bookmarks active with
         | Some entry => extract_project_and_id (fst (fst entry))
         | None => ""
         end.

(** The configuration key is absent: the client fails to list the
    section, or lists it without the key. *)
Definition absent (client : Client) (key : string) : Prop :=
  config_reply client "jira" = inl CommandError \/
  exists entries,
    config_reply client "jira" = inr entries /\
    forall entry, In entry entries -> snd (fst entry) <> key.

End Spec.

(** ** The parts of the pattern, named for the proofs *)

Module Parts.
Import Re.

(** [[A-Z]+-\d+], the part of the pattern after the optional prefix. *)
Definition ticket_re : regex :=
  Cat (Plus upper) (Cat (Lit Str.hyphen) (Plus digit)).

(** The continuation of [re.match]: nothing is left to match. *)
Definition finish : cont := fun j _ => Some j.

(** What is left to match once [.*] has stopped: the slash, then the
    ticket. *)
Definition slash_then_ticket : cont :=
  fun j t => exec (Lit Str.slash) j t (fun j' t' => exec ticket_re j' t' finish).

(** The message [format_message] returns for a base URL, a message and a
    reference. *)
Definition linked (jira_url_base message jira : string) : string :=
  let jira_link := jira_url_base ++ "/" ++ jira in
  if Str.contains jira_link message then message
  else Str.strip message ++ NL ++ NL ++ jira_link ++ NL.

(** The message [rewrite_ctx] hands to the original commit. *)
Definition processed {O : Type} (jira_url_base : string) (client : Client)
    (ctx : Ctx O) : string :=
  let found := Spec.reference client ctx in
  if truthy found then linked jira_url_base (_text ctx) found else _text ctx.

(** A trace of notices: nothing but lines printed. *)
Definition only_prints (tr : list event) : Prop :=
  forall ev, In ev tr -> exists line, ev = Print line.

End Parts.

(** ** Sample hosts for the concrete runs *)

Module Sample.

(** A client whose section has no [jira.url], with no bookmark. *)
Definition bare : Client :=
  mkClient (fun _ => inr [("jira", "jira.user", "me")]) ([], (-1)%Z).

(** A client with two bookmarks, the second one active. *)
Definition marked : Client :=
  mkClient (fun _ => inr [("jira", "jira.url", "https://j/browse")])
    ([("wip", 3%Z, "a1"); ("fix/XY-42-crash", 5%Z, "b2")], 1%Z).

(** A host commit that returns the context it is given. *)
Definition echo : Ctx unit -> unit -> M (Ctx unit) := fun ctx _ => ret ctx.

End Sample.

Unset Implicit Arguments.

(** * Properties *)

(** ** Byte strings *)

Module StrFacts.
Import Str.

Lemma append_empty_r s : s ++ "" = s.
Proof. induction s; simpl; congruence. Qed.

Lemma append_assoc (a b c : string) : (a ++ b) ++ c = a ++ b ++ c.
Proof. induction a; simpl; congruence. Qed.

Lemma length_append (a b : string) :
  String.length (a ++ b) = String.length a + String.length b.
Proof. induction a; simpl; congruence. Qed.

Lemma take_drop n s : take n s ++ drop n s = s.
Proof.
  revert s; induction n as [|n IH]; intros [|c s]; simpl; trivial.
  now rewrite IH.
Qed.

Lemma take_append a b : take (String.length a) (a ++ b) = a.
Proof. induction a; simpl; [now destruct b | congruence]. Qed.

Lemma drop_append a b : drop (String.length a) (a ++ b) = b.
Proof. induction a; simpl; trivial. Qed.

Lemma take_append_more a b n :
  take (String.length a + n) (a ++ b) = a ++ take n b.
Proof. induction a; simpl; congruence. Qed.

Lemma length_take n s : n <= String.length s -> String.length (take n s) = n.
Proof.
  revert s; induction n as [|n IH]; intros [|c s]; simpl; intros; try lia.
  rewrite IH; lia.
Qed.

Lemma all_append p a b : all p (a ++ b) = all p a && all p b.
Proof.
  induction a as [|c a IH]; simpl; trivial.
  now rewrite IH, andb_assoc.
Qed.

Lemma startswith_iff sub s :
  startswith sub s = true <-> exists b, s = sub ++ b.
Proof.
  revert s; induction sub as [|a sub IH]; intros s; simpl.
  - split; eauto.
  - destruct s as [|c s].
    + split; [discriminate | intros [b Hb]; discriminate].
    + rewrite andb_true_iff, Ascii.eqb_eq, IH. split.
      * intros [-> [b ->]]. eauto.
      * intros [b Hb]. injection Hb as -> ->. eauto.
Qed.

(** The search of [contains] finds exactly the verbatim occurrences. *)
Lemma contains_iff sub s : contains sub s = true <-> Spec.occurs sub s.
Proof.
  unfold Spec.occurs. induction s as [|c s IH].
  - simpl. rewrite orb_false_r, startswith_iff. split.
    + intros [b Hb]. exists "", b. exact Hb.
    + intros [[|x a] [b Hb]]; [eauto | discriminate].
  - cbn [contains]. rewrite orb_true_iff, startswith_iff, IH. split.
    + intros [[b Hb] | [a [b Hb]]].
      * exists "", b. exact Hb.
      * exists (String c a), b. simpl. now rewrite Hb.
    + intros [[|x a] [b Hb]].
      * left. eauto.
      * right. simpl in Hb. injection Hb as _ Hb. eauto.
Qed.

Lemma split_not_nil sep s : split sep s <> [].
Proof.
  destruct s as [|c s]; simpl; [discriminate|].
  destruct (Ascii.eqb c sep); [discriminate|].
  destruct (split sep s); discriminate.
Qed.

Lemma split_append_sep sep a b :
  split sep (a ++ String sep b) = (split sep a ++ split sep b)%list.
Proof.
  induction a as [|c a IH]; simpl.
  - now rewrite Ascii.eqb_refl.
  - destruct (Ascii.eqb c sep); [now rewrite IH|].
    rewrite IH. pose proof (split_not_nil sep a).
    destruct (split sep a); [contradiction | reflexivity].
Qed.

Lemma split_no_sep sep s :
  all (fun c => negb (Ascii.eqb c sep)) s = true -> split sep s = [s].
Proof.
  induction s as [|c s IH]; simpl; trivial.
  rewrite andb_true_iff, negb_true_iff. intros [-> H].
  now rewrite IH.
Qed.

Lemma last_append_not_nil {A} (l l' : list A) d :
  l' <> [] -> List.last (l ++ l') d = List.last l' d.
Proof.
  intros H. induction l as [|x l IH]; simpl; trivial.
  rewrite IH. destruct (l ++ l')%list eqn:E; trivial.
  apply app_eq_nil in E. tauto.
Qed.

(** [(pre + t).split(sep)[-1]] when [t] has no separator and [pre] is
    empty or ends with one. *)
Lemma last_split sep pre t :
  all (fun c => negb (Ascii.eqb c sep)) t = true ->
  pre = "" \/ (exists q, pre = q ++ String sep "") ->
  List.last (split sep (pre ++ t)) "" = t.
Proof.
  intros Ht [-> | [q ->]].
  - simpl. now rewrite split_no_sep.
  - rewrite append_assoc. simpl.
    rewrite split_append_sep, last_append_not_nil by apply split_not_nil.
    now rewrite split_no_sep.
Qed.

Lemma all_impl (p q : ascii -> bool) s :
  (forall c, p c = true -> q c = true) -> all p s = true -> all q s = true.
Proof.
  intros H. induction s as [|c s IH]; simpl; trivial.
  rewrite !andb_true_iff. intros [? ?]. auto.
Qed.

End StrFacts.

(** ** The matcher *)

Module ReFacts.
Import Str Re Spec Parts StrFacts.

Lemma span_skip p s : span p s ++ skip p s = s.
Proof.
  induction s as [|c s IH]; simpl; trivial.
  destruct (p c); simpl; congruence.
Qed.

Lemma all_span p s : all p (span p s) = true.
Proof.
  induction s as [|c s IH]; simpl; trivial.
  destruct (p c) eqn:E; simpl; trivial. now rewrite E.
Qed.

Lemma length_span_le p s : String.length (span p s) <= String.length s.
Proof.
  induction s as [|c s IH]; simpl; trivial.
  destruct (p c); simpl; lia.
Qed.

Lemma all_take_span p n s :
  n <= String.length (span p s) -> all p (take n s) = true.
Proof.
  revert s; induction n as [|n IH]; intros [|c s]; simpl; trivial.
  destruct (p c); simpl; intros; [apply IH|]; lia.
Qed.

Lemma length_span_append p a b :
  all p a = true -> String.length a <= String.length (span p (a ++ b)).
Proof.
  induction a as [|c a IH]; simpl; [lia|].
  rewrite andb_true_iff. intros [-> H]. simpl. apply IH in H. lia.
Qed.

(** When the continuation cannot start on a character of the class, a
    greedy repetition has one outcome: that of the whole run. *)
Lemma star_greedy p i s (k : cont) :
  (forall j c t, p c = true -> k j (String c t) = None) ->
  star p i s k = k (i + String.length (span p s)) (skip p s).
Proof.
  intros Hk. revert i; induction s as [|c s IH]; intros i; simpl.
  - now rewrite Nat.add_0_r.
  - destruct (p c) eqn:E; simpl.
    + rewrite IH, Nat.add_succ_r. simpl.
      destruct (k (S (i + _)) _); trivial.
      now apply Hk.
    + now rewrite Nat.add_0_r.
Qed.

(** With nothing left to match, the whole run is taken. *)
Lemma star_end p i s :
  star p i s (fun j _ => Some j) = Some (i + String.length (span p s)).
Proof.
  revert i; induction s as [|c s IH]; intros i; simpl.
  - now rewrite Nat.add_0_r.
  - destruct (p c); simpl.
    + now rewrite IH, Nat.add_succ_r.
    + now rewrite Nat.add_0_r.
Qed.

(** A failed repetition was refused at every count. *)
Lemma star_none p i s (k : cont) :
  star p i s k = None ->
  forall m, m <= String.length (span p s) -> k (i + m) (drop m s) = None.
Proof.
  revert i; induction s as [|c s IH]; intros i; simpl.
  - intros H [|m] ?; [now rewrite Nat.add_0_r | lia].
  - destruct (p c); simpl.
    + destruct (star p (S i) s k) eqn:Hs; [discriminate|].
      intros H [|m] Hm; [now rewrite Nat.add_0_r|].
      rewrite Nat.add_succ_r. apply (IH (S i)); trivial. lia.
    + intros H [|m] Hm; [now rewrite Nat.add_0_r | lia].
Qed.

(** A successful repetition stops at the longest count the continuation
    accepts. *)
Lemma star_some p i s (k : cont) e :
  star p i s k = Some e ->
  exists n, n <= String.length (span p s) /\
            k (i + n) (drop n s) = Some e /\
            forall m, n < m <= String.length (span p s) ->
                      k (i + m) (drop m s) = None.
Proof.
  revert i; induction s as [|c s IH]; intros i; simpl.
  - intros H. exists 0. rewrite Nat.add_0_r. repeat split; trivial; lia.
  - destruct (p c) eqn:E; simpl.
    + destruct (star p (S i) s k) eqn:Hs.
      * intros [= ->]. destruct (IH _ Hs) as (n & Hn & Hk & Hmax).
        exists (S n). rewrite Nat.add_succ_r. repeat split; trivial; try lia.
        intros [|m] Hm; [lia|]. rewrite Nat.add_succ_r. apply Hmax. lia.
      * intros H. exists 0. rewrite Nat.add_0_r. repeat split; trivial; try lia.
        intros [|m] Hm; [lia|]. rewrite Nat.add_succ_r. simpl.
        change (k (S i + m) (drop m s) = None). eapply star_none; [exact Hs | lia].
    + intros H. exists 0. rewrite Nat.add_0_r. repeat split; trivial; lia.
Qed.

(** *** The pattern of the hook *)

Lemma rmatch_unfold s :
  rmatch jira_regex s =
  match star dot 0 s slash_then_ticket with
  | Some e => Some e
  | None => exec ticket_re 0 s finish
  end.
Proof. reflexivity. Qed.

Lemma upper_not_hyphen c : upper c = true -> Ascii.eqb hyphen c = false.
Proof. destruct c as [[] [] [] [] [] [] [] []]; vm_compute; congruence. Qed.

Lemma upper_not_slash c : upper c = true -> negb (Ascii.eqb c slash) = true.
Proof. destruct c as [[] [] [] [] [] [] [] []]; vm_compute; congruence. Qed.

Lemma digit_not_slash c : digit c = true -> negb (Ascii.eqb c slash) = true.
Proof. destruct c as [[] [] [] [] [] [] [] []]; vm_compute; congruence. Qed.

Lemma truthy_true s : truthy s = true <-> s <> "".
Proof. destruct s; simpl; split; congruence. Qed.

(** The ticket part of the pattern matches exactly the leading ticket. *)
Lemma exec_ticket j t :
  exec ticket_re j t finish =
  option_map (fun tk => j + String.length tk) (leading_ticket t).
Proof.
  unfold leading_ticket. destruct t as [|d t]; [reflexivity|].
  cbn [ticket_re exec span skip]. destruct (upper d) eqn:Ed.
  - rewrite star_greedy.
    2:{ intros i c u Hc. cbn [exec]. now rewrite (upper_not_hyphen _ Hc). }
    destruct (skip upper t) as [|c u]; [reflexivity|].
    cbn [exec truthy]. rewrite andb_true_r, (Ascii.eqb_sym c).
    destruct (Ascii.eqb hyphen c); [|reflexivity].
    destruct u as [|x u]; [reflexivity|]. cbn [span andb].
    destruct (digit x); [|reflexivity]. cbn [truthy option_map].
    rewrite star_end. f_equal.
    simpl. rewrite length_append. simpl. lia.
  - cbn [truthy]. rewrite andb_false_r. reflexivity.
Qed.

Lemma leading_ticket_form t tk :
  leading_ticket t = Some tk ->
  is_ticket tk /\ exists trailing, t = tk ++ trailing.
Proof.
  unfold leading_ticket.
  pose proof (span_skip upper t) as Ht.
  destruct (skip upper t) as [|c u]; [discriminate|].
  pose proof (span_skip digit u) as Hu.
  destruct (Ascii.eqb c hyphen) eqn:Ec; [|discriminate].
  destruct (truthy (span upper t)) eqn:E1; [|discriminate].
  destruct (truthy (span digit u)) eqn:E2; [|discriminate].
  intros [= <-]. apply Ascii.eqb_eq in Ec. subst c. split.
  - exists (span upper t), (span digit u).
    rewrite !all_span. rewrite truthy_true in E1, E2. tauto.
  - exists (skip digit u). rewrite !append_assoc. simpl.
    now rewrite Hu.
Qed.

Lemma ticket_no_slash tk :
  is_ticket tk -> all (fun c => negb (Ascii.eqb c slash)) tk = true.
Proof.
  intros (u & d & -> & _ & Hu & _ & Hd).
  rewrite !all_append.
  rewrite (all_impl _ _ _ upper_not_slash Hu), (all_impl _ _ _ digit_not_slash Hd).
  reflexivity.
Qed.

Lemma slash_then_ticket_eq j t :
  slash_then_ticket j t =
  match t with
  | String d t' =>
      if Ascii.eqb slash d
      then option_map (fun tk => S j + String.length tk) (leading_ticket t')
      else None
  | EmptyString => None
  end.
Proof.
  unfold slash_then_ticket. destruct t as [|d t]; cbn [exec]; trivial.
  destruct (Ascii.eqb slash d); trivial. apply exec_ticket.
Qed.

(** A cut with a slash-terminated prefix is a point where [.*] may stop
    and the rest of the pattern matches. *)
Lemma cut_accepted s q t :
  cut s (q ++ "/") t ->
  String.length q <= String.length (span dot s) /\
  slash_then_ticket (0 + String.length q) (drop (String.length q) s) <> None.
Proof.
  intros (-> & _ & Hdot & Ht). split.
  - pose proof (length_span_append dot _ t Hdot) as H.
    rewrite length_append in H. simpl in H. lia.
  - rewrite append_assoc, drop_append, slash_then_ticket_eq. simpl.
    destruct (leading_ticket t); [discriminate | contradiction].
Qed.

Lemma rmatch_some s e :
  rmatch jira_regex s = Some e ->
  exists pre t tk,
    longest_cut s pre t /\ leading_ticket t = Some tk /\
    e = String.length pre + String.length tk.
Proof.
  rewrite rmatch_unfold.
  destruct (star dot 0 s slash_then_ticket) as [e0|] eqn:Hstar.
  - intros [= ->].
    destruct (star_some _ _ _ _ _ Hstar) as (n & Hn & Hk & Hmax).
    rewrite slash_then_ticket_eq in Hk.
    destruct (drop n s) as [|d t] eqn:Hd; [discriminate|].
    destruct (Ascii.eqb slash d) eqn:Ed; [|discriminate].
    apply Ascii.eqb_eq in Ed. subst d.
    destruct (leading_ticket t) as [tk|] eqn:Hl; [|discriminate].
    injection Hk as <-.
    assert (Hlen : String.length (take n s) = n).
    { apply length_take. pose proof (length_span_le dot s). lia. }
    exists (take n s ++ "/"), t, tk. repeat split.
    + rewrite append_assoc. simpl. fold slash.
      rewrite <- Hd. symmetry. apply take_drop.
    + right. now exists (take n s).
    + rewrite all_append, (all_take_span dot n s Hn). reflexivity.
    + congruence.
    + intros pre' t' Hc. rewrite length_append, Hlen. simpl.
      destruct Hc as (Hs & [-> | [q ->]] & Hrest); [simpl; lia|].
      destruct (cut_accepted _ _ _ (conj Hs (conj (or_intror (ex_intro _ q eq_refl)) Hrest)))
        as [Hq Hacc].
      rewrite length_append. simpl.
      destruct (Nat.le_gt_cases (String.length q) n) as [|Hgt]; [lia|].
      exfalso. apply Hacc. apply Hmax. lia.
    + exact Hl.
    + rewrite length_append, Hlen. simpl. lia.
  - intros He. rewrite exec_ticket in He.
    destruct (leading_ticket s) as [tk|] eqn:Hl; [|discriminate].
    injection He as <-.
    exists "", s, tk. repeat split; trivial.
    + now left.
    + congruence.
    + intros pre' t' Hc.
      destruct Hc as (Hs & [-> | [q ->]] & Hrest); [simpl; lia|].
      destruct (cut_accepted _ _ _ (conj Hs (conj (or_intror (ex_intro _ q eq_refl)) Hrest)))
        as [Hq Hacc].
      exfalso. apply Hacc. now apply (star_none _ _ _ _ Hstar).
Qed.

Lemma rmatch_none s :
  rmatch jira_regex s = None -> forall pre t, ~ cut s pre t.
Proof.
  rewrite rmatch_unfold.
  destruct (star dot 0 s slash_then_ticket) eqn:Hstar; [discriminate|].
  rewrite exec_ticket. intros He pre t Hc.
  destruct Hc as (Hs & [-> | [q ->]] & Hrest).
  - simpl in Hs. subst t. destruct Hrest as [_ Hl].
    destruct (leading_ticket s); [discriminate | contradiction].
  - destruct (cut_accepted _ _ _ (conj Hs (conj (or_intror (ex_intro _ q eq_refl)) Hrest)))
      as [Hq Hacc].
    apply Hacc. now apply (star_none _ _ _ _ Hstar).
Qed.

(** The text the extractor returns when the pattern matches up to [e]. *)
Lemma last_segment pre t tk :
  is_prefix pre -> leading_ticket t = Some tk ->
  List.last
    (split slash (group0 (pre ++ t) (String.length pre + String.length tk))) "" = tk.
Proof.
  intros Hpre Ht. destruct (leading_ticket_form _ _ Ht) as (Htk & trailing & ->).
  unfold group0. rewrite take_append_more, take_append.
  apply last_split; [now apply ticket_no_slash | exact Hpre].
Qed.

(** The extractor, case by case. *)
Lemma extract_cases s :
  ((forall pre t, ~ cut s pre t) /\ extract_project_and_id s = "") \/
  (exists pre t tk,
      longest_cut s pre t /\ leading_ticket t = Some tk /\
      extract_project_and_id s = tk).
Proof.
  unfold extract_project_and_id.
  destruct (rmatch jira_regex s) as [e|] eqn:Hm.
  - right. destruct (rmatch_some _ _ Hm) as (pre & t & tk & Hc & Ht & ->).
    exists pre, t, tk. repeat split; trivial; try apply Hc.
    destruct Hc as [(-> & Hpre & _) _]. now apply last_segment.
  - left. split; trivial. now apply rmatch_none.
Qed.

Lemma ticket_not_empty tk : is_ticket tk -> tk <> "".
Proof.
  intros (u & d & -> & Hu & _). destruct u; [contradiction | discriminate].
Qed.

(** *** From the words of the pattern to a cut *)

Lemma span_run p u c r :
  all p u = true -> p c = false ->
  span p (u ++ String c r) = u /\ skip p (u ++ String c r) = String c r.
Proof.
  intros Hu Hc. induction u as [|x u IH]; simpl.
  - now rewrite Hc.
  - simpl in Hu. apply andb_true_iff in Hu as [-> Hu].
    destruct (IH Hu) as [-> ->]. now split.
Qed.

Lemma span_append_all p d r :
  all p d = true -> span p (d ++ r) = d ++ span p r.
Proof.
  induction d as [|x d IH]; simpl; trivial.
  rewrite andb_true_iff. intros [-> Hd]. now rewrite IH.
Qed.

(** A text that begins with a ticket has a leading ticket. *)
Lemma leading_ticket_of_ticket tk trailing :
  is_ticket tk -> leading_ticket (tk ++ trailing) <> None.
Proof.
  intros (u & d & -> & Hu & Hau & Hd & Had).
  unfold leading_ticket. rewrite !append_assoc.
  change ("-" ++ d ++ trailing) with (String hyphen (d ++ trailing)).
  destruct (span_run upper u hyphen (d ++ trailing) Hau eq_refl) as [-> ->].
  rewrite Ascii.eqb_refl, span_append_all by exact Had.
  destruct u; [contradiction|]. destruct d; [contradiction|]. discriminate.
Qed.

Lemma matches_cut pre tk trailing :
  is_prefix pre -> all dot pre = true -> is_ticket tk ->
  cut (pre ++ tk ++ trailing) pre (tk ++ trailing).
Proof.
  intros Hpre Hdot Htk. repeat split; trivial.
  now apply leading_ticket_of_ticket.
Qed.

Lemma cut_matches s pre t : cut s pre t -> matches_pattern s.
Proof.
  intros (-> & Hpre & _ & Ht).
  destruct (leading_ticket t) as [tk|] eqn:Hl; [|contradiction].
  destruct (leading_ticket_form _ _ Hl) as (Htk & trailing & ->).
  now exists pre, tk, trailing.
Qed.

(** On a one-line text the pattern of the specification and the
    extractor agree on what matches. *)
Lemma matches_extracted s :
  all dot s = true -> matches_pattern s -> extract_project_and_id s <> "".
Proof.
  intros Hs (pre & tk & trailing & -> & Hpre & Htk).
  rewrite all_append in Hs. apply andb_true_iff in Hs as [Hdot _].
  pose proof (matches_cut pre tk trailing Hpre Hdot Htk) as Hc.
  destruct (extract_cases (pre ++ tk ++ trailing))
    as [[Hno _] | (pre0 & t0 & tk0 & _ & Hl & ->)].
  - now destruct (Hno _ _ Hc).
  - apply ticket_not_empty. now apply (leading_ticket_form t0).
Qed.

End ReFacts.

(** ** The extractor: claims *)

Section Extractor.
Import Str Spec StrFacts ReFacts.

(** C3.  A string that does not match [^(prefix/)?[A-Z]+-[0-9]+] (an
    optional slash-terminated prefix, then uppercase letters, a hyphen and
    digits, from offset 0) is extracted to the empty string; so are
    ["abc-123-branch-name"] and ["branch-name-ABC-123"]. *)
Theorem extract_no_match :
  (forall s, ~ matches_pattern s -> extract_project_and_id s = "") /\
  extract_project_and_id "abc-123-branch-name" = "" /\
  extract_project_and_id "branch-name-ABC-123" = "".
Proof.
  split; [|split; reflexivity].
  intros s Hno.
  destruct (extract_cases s) as [[_ He] | (pre & t & tk & [Hc _] & _)]; trivial.
  destruct Hno. now apply (cut_matches s pre t).
Qed.

(** C4, as the code has it.  When the input is a prefix (empty, or ended
    by a slash and within the first line) followed by a ticket, the
    extractor returns the ticket that follows the longest such prefix,
    without the prefix and without the text after the ticket:
    ["ABC-1/DEF-2"] gives ["DEF-2"]. *)
Theorem extract_after_longest_prefix :
  (forall pre tk trailing,
      is_prefix pre -> all Re.dot pre = true -> is_ticket tk ->
      let s := pre ++ tk ++ trailing in
      exists pre0 t0 tk0,
        longest_cut s pre0 t0 /\ leading_ticket t0 = Some tk0 /\
        is_ticket tk0 /\ extract_project_and_id s = tk0) /\
  extract_project_and_id "feature/ABC-123-x" = "ABC-123" /\
  extract_project_and_id "ABC-123-branch-name" = "ABC-123" /\
  extract_project_and_id "ABC-1/DEF-2" = "DEF-2".
Proof.
  split; [|repeat split; reflexivity].
  intros pre tk trailing Hpre Hdot Htk s.
  pose proof (matches_cut pre tk trailing Hpre Hdot Htk) as Hc. fold s in Hc.
  destruct (extract_cases s) as [[Hno _] | (pre0 & t0 & tk0 & Hlc & Hl & He)].
  - now destruct (Hno _ _ Hc).
  - exists pre0, t0, tk0. repeat split; trivial; try apply Hlc.
    now apply (leading_ticket_form t0).
Qed.

(** C9.  The extractor is total: every string has a result, which is a
    string; and a result that is not empty is a ticket [PROJECT-ID]
    (uppercase letters, a hyphen, digits) without a slash that occurs
    verbatim, so with its casing, in the input. *)
Theorem extract_total_form :
  forall s,
  exists result,
    extract_project_and_id s = result /\
    (result = "" \/
     (is_ticket result /\
      all (fun c => negb (Ascii.eqb c slash)) result = true /\
      occurs result s)).
Proof.
  intros s. exists (extract_project_and_id s). split; trivial.
  destruct (extract_cases s) as [[_ He] | (pre & t & tk & [Hc _] & Hl & ->)];
    [now left | right].
  destruct (leading_ticket_form _ _ Hl) as (Htk & trailing & ->).
  destruct Hc as (-> & _). repeat split; trivial.
  - now apply ticket_no_slash.
  - now exists pre, trailing.
Qed.

End Extractor.

(** ** The formatter *)

Module FormatFacts.
Import Str Spec Parts StrFacts.

Lemma bind_after {A B : Type} tr (a : A) (f : A -> M B) :
  bind (tr, inr a) f = after tr (f a).
Proof. unfold bind, after. now destruct (f a). Qed.

Lemma after_nil {A : Type} (m : M A) : after [] m = m.
Proof. now destruct m. Qed.

(** The formatter never raises; it prints at most its notice. *)
Lemma format_message_run b m r w :
  exists notices,
    only_prints notices /\
    format_message b m r w = (notices, inr (linked b m r)).
Proof.
  unfold format_message, linked.
  destruct (contains (b ++ "/" ++ r) m).
  - exists []. split; [intros ev []|reflexivity].
  - eexists. split; [|reflexivity].
    intros ev [<- | []]. eauto.
Qed.

Lemma linked_present b m r : occurs (b ++ "/" ++ r) m -> linked b m r = m.
Proof.
  intros H. apply contains_iff in H. unfold linked. now rewrite H.
Qed.

Lemma linked_absent b m r :
  ~ occurs (b ++ "/" ++ r) m ->
  linked b m r = strip m ++ NL ++ NL ++ (b ++ "/" ++ r) ++ NL.
Proof.
  intros H. unfold linked.
  destruct (contains (b ++ "/" ++ r) m) eqn:Hc; trivial.
  apply contains_iff in Hc. contradiction.
Qed.

Lemma link_occurs_linked b m r : occurs (b ++ "/" ++ r) (linked b m r).
Proof.
  unfold linked. destruct (contains (b ++ "/" ++ r) m) eqn:Hc.
  - now apply contains_iff.
  - exists (strip m ++ NL ++ NL), NL. now rewrite !append_assoc.
Qed.

End FormatFacts.

Section Formatter.
Import Str Spec Parts StrFacts FormatFacts.

(** C1, as the code has it.  When the link [b/r] does not occur in the
    message, the formatter returns the message with the white space at
    both its ends removed, then one blank line, the link and a newline;
    ["fix bug"] with ["ABC-1"] and ["https://j/browse"] gives
    ["fix bug\n\nhttps://j/browse/ABC-1\n"]. *)
Theorem format_message_appends :
  (forall b m r whence,
      ~ occurs (b ++ "/" ++ r) m ->
      snd (format_message b m r whence)
      = inr (strip m ++ NL ++ NL ++ (b ++ "/" ++ r) ++ NL)) /\
  (forall whence,
      snd (format_message "https://j/browse" "fix bug" "ABC-1" whence)
      = inr ("fix bug" ++ NL ++ NL ++ "https://j/browse/ABC-1" ++ NL)).
Proof.
  split.
  - intros b m r w H.
    destruct (format_message_run b m r w) as (tr & _ & ->). simpl.
    now rewrite linked_absent.
  - intros w. reflexivity.
Qed.

(** C5.  When the link [b/r] occurs verbatim in the message, the
    formatter returns the message unchanged (and prints nothing). *)
Theorem format_message_present :
  forall b m r whence,
    occurs (b ++ "/" ++ r) m -> format_message b m r whence = ret m.
Proof.
  intros b m r w H. apply contains_iff in H.
  unfold format_message. now rewrite H.
Qed.

(** C10.  The formatter is idempotent: it returns a message, and applied
    to that message it returns it again (and prints nothing). *)
Theorem format_message_idempotent :
  forall b m r whence whence',
  exists m1,
    snd (format_message b m r whence) = inr m1 /\
    format_message b m1 r whence' = ret m1.
Proof.
  intros b m r w w'. exists (linked b m r). split.
  - now destruct (format_message_run b m r w) as (tr & _ & ->).
  - pose proof (link_occurs_linked b m r) as H. apply contains_iff in H.
    unfold format_message. now rewrite H.
Qed.

End Formatter.

(** ** The interceptor *)

Module HookFacts.
Import Str Spec Parts StrFacts FormatFacts.

Lemma index_in_range {A : Type} (l : list A) (i : Z) :
  (0 <= i < Z.of_nat (List.length l))%Z -> exists x, Py.index l i = Some x.
Proof.
  intros H. unfold Py.index.
  destruct (Z.leb_spec 0 i); [|lia].
  destruct (nth_error l (Z.to_nat i)) eqn:E; [eauto|].
  apply nth_error_None in E. lia.
Qed.

Lemma set_text_same {O : Type} (ctx : Ctx O) : set_text ctx (_text ctx) = ctx.
Proof. now destruct ctx. Qed.

Lemma truthy_false s : truthy s = false <-> s = "".
Proof. destruct s; simpl; split; congruence. Qed.

Section Run.
Variables E R O : Type.
Variable client : Client.
Variable jira_url_base : string.

(** The branch name gives a reference: the client is not called. *)
Lemma rewrite_ctx_branch (original : Ctx O -> E -> M R) ctx error :
  truthy (extract_project_and_id (branch ctx)) = true ->
  rewrite_ctx client jira_url_base original ctx error =
  bind (format_message jira_url_base (_text ctx)
          (extract_project_and_id (branch ctx)) "branch name")
       (fun message => original (set_text ctx message) error).
Proof. intros H. unfold rewrite_ctx. now rewrite H. Qed.

(** No reference in the branch name and no active bookmark. *)
Lemma rewrite_ctx_inactive (original : Ctx O -> E -> M R) ctx error :
  truthy (extract_project_and_id (branch ctx)) = false ->
  snd (bookmarks_reply client) = (-1)%Z ->
  rewrite_ctx client jira_url_base original ctx error =
  after [CallBookmarks] (original ctx error).
Proof.
  intros H Ha. unfold rewrite_ctx, client_bookmarks. rewrite H.
  destruct (bookmarks_reply client) as [bookmarks active].
  simpl in Ha. subst active. cbn.
  rewrite set_text_same. now destruct (original ctx error).
Qed.

(** No reference in the branch name, and an active bookmark. *)
Lemma rewrite_ctx_bookmark (original : Ctx O -> E -> M R) ctx error entry :
  truthy (extract_project_and_id (branch ctx)) = false ->
  snd (bookmarks_reply client) <> (-1)%Z ->
  Py.index (fst (bookmarks_reply client)) (snd (bookmarks_reply client))
  = Some entry ->
  rewrite_ctx client jira_url_base original ctx error =
  after [CallBookmarks]
    (bind (if truthy (extract_project_and_id (fst (fst entry)))
           then format_message jira_url_base (_text ctx)
                  (extract_project_and_id (fst (fst entry))) "bookmark name"
           else ret (_text ctx))
          (fun message => original (set_text ctx message) error)).
Proof.
  intros H Ha Hi. unfold rewrite_ctx, client_bookmarks. rewrite H.
  destruct (bookmarks_reply client) as [bookmarks active].
  simpl in Ha, Hi. apply Z.eqb_neq in Ha.
  cbn [emit ret bind app]. rewrite Ha, Hi. cbn [negb].
  set (m := if truthy _ then _ else _).
  destruct m as [tr [e|message]]; cbn.
  - reflexivity.
  - now destruct (original (set_text ctx message) error).
Qed.

Lemma processed_branch (ctx : Ctx O) :
  truthy (extract_project_and_id (branch ctx)) = true ->
  processed jira_url_base client ctx =
  linked jira_url_base (_text ctx) (extract_project_and_id (branch ctx)).
Proof. intros H. unfold processed, reference. now rewrite H, H. Qed.

Lemma processed_inactive (ctx : Ctx O) :
  truthy (extract_project_and_id (branch ctx)) = false ->
  snd (bookmarks_reply client) = (-1)%Z ->
  processed jira_url_base client ctx = _text ctx.
Proof.
  intros H Ha. unfold processed, reference. rewrite H.
  destruct (bookmarks_reply client) as [bookmarks active].
  simpl in Ha. now subst active.
Qed.

Lemma processed_bookmark (ctx : Ctx O) entry :
  truthy (extract_project_and_id (branch ctx)) = false ->
  snd (bookmarks_reply client) <> (-1)%Z ->
  Py.index (fst (bookmarks_reply client)) (snd (bookmarks_reply client))
  = Some entry ->
  processed jira_url_base client ctx =
  if truthy (extract_project_and_id (fst (fst entry)))
  then linked jira_url_base (_text ctx)
         (extract_project_and_id (fst (fst entry)))
  else _text ctx.
Proof.
  intros H Ha Hi. unfold processed, reference. rewrite H.
  destruct (bookmarks_reply client) as [bookmarks active].
  simpl in Ha, Hi. apply Z.eqb_neq in Ha. rewrite Ha, Hi.
  now destruct (truthy (extract_project_and_id (fst (fst entry)))) eqn:Hn;
    rewrite ?Hn.
Qed.

Lemma active_entry :
  host_ok client -> snd (bookmarks_reply client) <> (-1)%Z ->
  exists entry,
    Py.index (fst (bookmarks_reply client)) (snd (bookmarks_reply client))
    = Some entry.
Proof.
  unfold host_ok. destruct (bookmarks_reply client) as [bookmarks active].
  simpl. intros [-> | Hok] Hne; [contradiction|].
  now apply index_in_range.
Qed.

(** Every run of the interceptor that the host answers within its
    contract: some notices, then the original commit on the processed
    context. *)
Lemma rewrite_ctx_run ctx error :
  extract_project_and_id (branch ctx) <> "" \/ host_ok client ->
  exists notices,
    (forall ev, In ev notices ->
                ev = CallBookmarks \/ exists line, ev = Print line) /\
    forall original : Ctx O -> E -> M R,
      rewrite_ctx client jira_url_base original ctx error =
      after notices
        (original (set_text ctx (processed jira_url_base client ctx)) error).
Proof.
  intros Hok.
  destruct (truthy (extract_project_and_id (branch ctx))) eqn:Hb.
  - destruct (format_message_run jira_url_base (_text ctx)
                (extract_project_and_id (branch ctx)) "branch name")
      as (tr & Htr & Hf).
    exists tr. split.
    + intros ev Hev. right. now apply Htr.
    + intros original.
      rewrite rewrite_ctx_branch, Hf, processed_branch by exact Hb.
      now rewrite bind_after.
  - apply truthy_false in Hb as Hb'.
    destruct Hok as [Hok | Hok]; [contradiction|].
    destruct (Z.eq_dec (snd (bookmarks_reply client)) (-1)) as [Ha | Ha].
    + exists [CallBookmarks]. split.
      * intros ev [<- | []]. now left.
      * intros original.
        rewrite rewrite_ctx_inactive, processed_inactive by trivial.
        now rewrite set_text_same.
    + destruct (active_entry Hok Ha) as [entry Hi].
      destruct (truthy (extract_project_and_id (fst (fst entry)))) eqn:Hn.
      * destruct (format_message_run jira_url_base (_text ctx)
                    (extract_project_and_id (fst (fst entry))) "bookmark name")
          as (tr & Htr & Hf).
        exists (CallBookmarks :: tr). split.
        -- intros ev [<- | Hev]; [now left | right; now apply Htr].
        -- intros original.
           rewrite (rewrite_ctx_bookmark original ctx error entry),
             (processed_bookmark ctx entry), Hn, Hf by trivial.
           now rewrite bind_after.
      * exists [CallBookmarks]. split.
        -- intros ev [<- | []]. now left.
        -- intros original.
           rewrite (rewrite_ctx_bookmark original ctx error entry),
             (processed_bookmark ctx entry), Hn by trivial.
           unfold ret. now rewrite bind_after, after_nil.
Qed.

End Run.

Lemma next_with_key_missing key entries :
  (forall entry, In entry entries -> snd (fst entry) <> key) ->
  next_with_key key entries = raise StopIteration.
Proof.
  induction entries as [|cfg entries IH]; simpl; trivial.
  intros H. destruct (String.eqb_spec (snd (fst cfg)) key) as [Heq | _].
  - destruct (H cfg); auto.
  - apply IH. intros entry Hin. apply H. now right.
Qed.

Lemma get_config_absent client key :
  absent client key ->
  get_config client key = ([CallConfig "jira"], inl (missing key)).
Proof.
  unfold get_config, client_config.
  intros [H | (entries & H & Hno)]; rewrite H; cbn; trivial.
  now rewrite (next_with_key_missing key entries Hno).
Qed.

End HookFacts.

Section Interceptor.
Import Str Spec Parts StrFacts FormatFacts HookFacts.

Variables E R O : Type.

(** C2, as the code has it.  The message handed to the original commit
    is the original message when no reference is found in the branch or
    bookmark name or when the link occurs in it; otherwise it is the
    original message with the white space at both its ends removed,
    followed by one blank line, the link and a newline.  The run is one in
    which the branch name gives a reference or [client.bookmarks()] keeps
    its contract, so that [bookmarks[active]] does not raise. *)
Theorem rewrite_ctx_message :
  forall (client : Client) (jira_url_base : string) (ctx : Ctx O) (error : E),
    extract_project_and_id (branch ctx) <> "" \/ host_ok client ->
    let found := reference client ctx in
    let jira_link := jira_url_base ++ "/" ++ found in
    let message := _text ctx in
    exists notices message',
      (found = "" \/ occurs jira_link message -> message' = message) /\
      (found <> "" -> ~ occurs jira_link message ->
       message' = strip message ++ NL ++ NL ++ jira_link ++ NL) /\
      forall original : Ctx O -> E -> M R,
        rewrite_ctx client jira_url_base original ctx error =
        after notices (original (set_text ctx message') error).
Proof.
  intros client b ctx error Hok found link message.
  destruct (rewrite_ctx_run E R O client b ctx error Hok) as (tr & _ & Hrun).
  exists tr, (processed b client ctx). split; [|split]; trivial.
  - unfold processed. fold found. intros [-> | Hocc]; trivial.
    destruct (truthy found); trivial. now apply linked_present.
  - unfold processed. fold found. intros Hf Hocc.
    destruct found; [contradiction|]. now apply linked_absent.
Qed.

(** C6.  The branch name is examined first: when it gives a reference,
    that reference is used and the client's bookmarks are not asked for;
    when neither the branch name nor an active bookmark gives one, the
    original commit runs on the untouched context; and when only the
    active bookmark gives one, that one is used. *)
Theorem rewrite_ctx_precedence :
  forall (jira_url_base : string) (ctx : Ctx O) (error : E),
    (extract_project_and_id (branch ctx) <> "" ->
     exists notices message',
       format_message jira_url_base (_text ctx)
         (extract_project_and_id (branch ctx)) "branch name"
       = (notices, inr message') /\
       ~ In CallBookmarks notices /\
       forall (client : Client) (original : Ctx O -> E -> M R),
         rewrite_ctx client jira_url_base original ctx error =
         after notices (original (set_text ctx message') error)) /\
    (forall client : Client,
        extract_project_and_id (branch ctx) = "" ->
        (snd (bookmarks_reply client) = (-1)%Z \/
         exists entry,
           snd (bookmarks_reply client) <> (-1)%Z /\
           Py.index (fst (bookmarks_reply client)) (snd (bookmarks_reply client))
           = Some entry /\
           extract_project_and_id (fst (fst entry)) = "") ->
        forall original : Ctx O -> E -> M R,
          rewrite_ctx client jira_url_base original ctx error =
          after [CallBookmarks] (original ctx error)) /\
    (forall (client : Client) entry,
        extract_project_and_id (branch ctx) = "" ->
        snd (bookmarks_reply client) <> (-1)%Z ->
        Py.index (fst (bookmarks_reply client)) (snd (bookmarks_reply client))
        = Some entry ->
        extract_project_and_id (fst (fst entry)) <> "" ->
        exists notices message',
          format_message jira_url_base (_text ctx)
            (extract_project_and_id (fst (fst entry))) "bookmark name"
          = (notices, inr message') /\
          forall original : Ctx O -> E -> M R,
            rewrite_ctx client jira_url_base original ctx error =
            after (CallBookmarks :: notices)
              (original (set_text ctx message') error)).
Proof.
  intros b ctx error. split; [|split].
  - intros Hb. apply ReFacts.truthy_true in Hb.
    destruct (format_message_run b (_text ctx)
                (extract_project_and_id (branch ctx)) "branch name")
      as (tr & Htr & Hf).
    exists tr, (linked b (_text ctx) (extract_project_and_id (branch ctx))).
    repeat split; trivial.
    + intros Hin. destruct (Htr _ Hin) as [line Hline]. discriminate.
    + intros client original.
      rewrite rewrite_ctx_branch, Hf by exact Hb. now rewrite bind_after.
  - intros client Hb Hbm original. apply truthy_false in Hb.
    destruct Hbm as [Ha | (entry & Ha & Hi & Hn)].
    + now apply rewrite_ctx_inactive.
    + rewrite (rewrite_ctx_bookmark E R O client b original ctx error entry)
        by trivial.
      rewrite Hn. cbn [truthy]. unfold ret.
      now rewrite bind_after, after_nil, set_text_same.
  - intros client entry Hb Ha Hi Hn.
    apply truthy_false in Hb. apply ReFacts.truthy_true in Hn.
    destruct (format_message_run b (_text ctx)
                (extract_project_and_id (fst (fst entry))) "bookmark name")
      as (tr & Htr & Hf).
    exists tr, (linked b (_text ctx) (extract_project_and_id (fst (fst entry)))).
    split; trivial. intros original.
    rewrite (rewrite_ctx_bookmark E R O client b original ctx error entry)
      by trivial.
    rewrite Hn, Hf. now rewrite bind_after.
Qed.

(** C7.  When [jira.url] is absent as the hook is installed, the hook
    prints the error and then the help text on standard output and exits
    with status 1, and the repository keeps its commit operation. *)
Theorem install_missing_config :
  forall (client : Client) (repo : Repo E R O),
    absent client "jira.url" ->
    let result := append_jira_commit_message client repo in
    repo_after result = repo /\
    outcome result =
      ([CallConfig "jira";
        Print "ERROR: Missing configuration key 'jira.url'";
        Print help_text],
       inl (SystemExit 1)) /\
    stdout (fst (outcome result)) =
      "ERROR: Missing configuration key 'jira.url'" ++ NL ++ help_text ++ NL.
Proof.
  intros client repo Habs result. subst result.
  unfold append_jira_commit_message.
  rewrite (get_config_absent client "jira.url" Habs).
  repeat split.
Qed.

(** C8.  The interceptor changes the message of the context and nothing
    else: the branch, the other fields and the error handler reach the
    original commit as they came, and what the original commit returns
    or raises is the interceptor's own result.  The run is one in which
    the branch name gives a reference or [client.bookmarks()] keeps its
    contract, so that [bookmarks[active]] does not raise. *)
Theorem rewrite_ctx_frame :
  forall (client : Client) (jira_url_base : string) (ctx : Ctx O) (error : E),
    extract_project_and_id (branch ctx) <> "" \/ host_ok client ->
    exists notices message',
      (forall ev, In ev notices ->
                  ev = CallBookmarks \/ exists line, ev = Print line) /\
      forall original : Ctx O -> E -> M R,
        let ctx' :=
          {| branch := branch ctx; _text := message'; rest := rest ctx |} in
        fst (rewrite_ctx client jira_url_base original ctx error)
        = (notices ++ fst (original ctx' error))%list /\
        snd (rewrite_ctx client jira_url_base original ctx error)
        = snd (original ctx' error).
Proof.
  intros client b ctx error Hok.
  destruct (rewrite_ctx_run E R O client b ctx error Hok) as (tr & Htr & Hrun).
  exists tr, (processed b client ctx). split; trivial.
  intros original ctx'. rewrite Hrun. split; reflexivity.
Qed.

End Interceptor.

(** ** The examples of the docstring *)

Module Doctest.

Example leading : extract_project_and_id "ABC-123-branch-name" = "ABC-123".
Proof. reflexivity. Qed.

Example feature : extract_project_and_id "feature/ABC-123-branch-name" = "ABC-123".
Proof. reflexivity. Qed.

Example fix_prefix : extract_project_and_id "fix/ABC-123-branch-name" = "ABC-123".
Proof. reflexivity. Qed.

Example plain : extract_project_and_id "branch-name" = "".
Proof. reflexivity. Qed.

Example lowercase : extract_project_and_id "abc-123-branch-name" = "".
Proof. reflexivity. Qed.

Example trailing : extract_project_and_id "branch-name-ABC-123" = "".
Proof. reflexivity. Qed.

(** The pattern's [.] stops at a newline, so a prefix cannot span lines. *)
Example second_line :
  extract_project_and_id ("a" ++ NL ++ "b/ABC-1") = "".
Proof. reflexivity. Qed.

End Doctest.

(** ** Concrete runs *)

Module Runs.
Import Str Spec Parts Sample StrFacts ReFacts FormatFacts HookFacts.

Lemma not_occurs sub s : contains sub s = false -> ~ occurs sub s.
Proof. intros H Ho. apply contains_iff in Ho. congruence. Qed.

Lemma one_line_no_match s :
  all Re.dot s = true -> extract_project_and_id s = "" -> ~ matches_pattern s.
Proof. intros Hs He Hm. now apply (matches_extracted s Hs Hm). Qed.

Lemma ticket_DEF_2 : is_ticket "DEF-2".
Proof. exists "DEF", "2". repeat split; discriminate. Qed.

Lemma ticket_ABC_1 : is_ticket "ABC-1".
Proof. exists "ABC", "1". repeat split; discriminate. Qed.

(** C1 as stated fails: leading white space is removed too. *)
Lemma format_message_keeps_no_leading_space :
  let b := "https://j/browse" in
  let m := " fix bug" in
  let r := "ABC-1" in
  ~ occurs (b ++ "/" ++ r) m /\
  snd (format_message b m r "branch name")
  <> inr (rstrip m ++ NL ++ NL ++ (b ++ "/" ++ r) ++ NL).
Proof.
  split.
  - apply not_occurs. reflexivity.
  - vm_compute. discriminate.
Qed.

(** C2 as stated fails: the processed message does not even begin with
    the original one. *)
Lemma rewrite_ctx_not_an_extension :
  let m := " fix bug" in
  exists ctx',
    snd (rewrite_ctx bare "https://j/browse" echo (mkCtx "ABC-1" m tt) tt)
    = inr ctx' /\
    _text ctx' <> m /\
    forall block, _text ctx' <> m ++ block.
Proof.
  eexists. split; [vm_compute; reflexivity|]. split.
  - discriminate.
  - intros block. simpl. discriminate.
Qed.

(** C4 as stated fails: of two references the later one is returned. *)
Lemma extract_not_first :
  "ABC-1/DEF-2" = "" ++ "ABC-1" ++ "/DEF-2" /\
  is_prefix "" /\ is_ticket "ABC-1" /\
  extract_project_and_id "ABC-1/DEF-2" = "DEF-2" /\
  extract_project_and_id "ABC-1/DEF-2" <> "ABC-1".
Proof.
  repeat split; try discriminate.
  - now left.
  - apply ticket_ABC_1.
Qed.

Lemma format_message_appends_witness :
  ~ occurs ("https://j/browse" ++ "/" ++ "ABC-1") "fix bug  " /\
  snd (format_message "https://j/browse" "fix bug  " "ABC-1" "branch name")
  = inr (strip "fix bug  " ++ NL ++ NL ++ ("https://j/browse" ++ "/" ++ "ABC-1") ++ NL).
Proof.
  split.
  - apply not_occurs. reflexivity.
  - apply (proj1 format_message_appends). apply not_occurs. reflexivity.
Defined.

Lemma rewrite_ctx_message_witness :
  (extract_project_and_id "default" <> "" \/ host_ok marked) /\
  exists notices message',
    (reference marked (mkCtx "default" " fix bug " tt) = "" \/
     occurs ("https://j/browse" ++ "/" ++ reference marked (mkCtx "default" " fix bug " tt))
       " fix bug " -> message' = " fix bug ") /\
    (reference marked (mkCtx "default" " fix bug " tt) <> "" ->
     ~ occurs ("https://j/browse" ++ "/" ++ reference marked (mkCtx "default" " fix bug " tt))
         " fix bug " ->
     message' = strip " fix bug " ++ NL ++ NL
                ++ ("https://j/browse" ++ "/" ++ reference marked (mkCtx "default" " fix bug " tt))
                ++ NL) /\
    forall original : Ctx unit -> unit -> M (Ctx unit),
      rewrite_ctx marked "https://j/browse" original (mkCtx "default" " fix bug " tt) tt =
      after notices (original (set_text (mkCtx "default" " fix bug " tt) message') tt).
Proof.
  assert (H : extract_project_and_id "default" <> "" \/ host_ok marked).
  { right. unfold host_ok. simpl. lia. }
  split; [exact H|].
  exact (rewrite_ctx_message unit (Ctx unit) unit marked "https://j/browse"
           (mkCtx "default" " fix bug " tt) tt H).
Defined.

Lemma extract_no_match_witness :
  ~ matches_pattern "abc-123-branch-name" /\
  extract_project_and_id "abc-123-branch-name" = "".
Proof.
  assert (H : ~ matches_pattern "abc-123-branch-name").
  { apply one_line_no_match; reflexivity. }
  split; [exact H|].
  exact (proj1 extract_no_match "abc-123-branch-name" H).
Defined.

Lemma extract_after_longest_prefix_witness :
  exists pre0 t0 tk0,
    longest_cut ("ABC-1/" ++ "DEF-2" ++ "-x") pre0 t0 /\
    leading_ticket t0 = Some tk0 /\ is_ticket tk0 /\
    extract_project_and_id ("ABC-1/" ++ "DEF-2" ++ "-x") = tk0.
Proof.
  apply (proj1 extract_after_longest_prefix "ABC-1/" "DEF-2" "-x").
  - right. now exists "ABC-1".
  - reflexivity.
  - apply ticket_DEF_2.
Defined.

Lemma format_message_present_witness :
  occurs ("https://j/browse" ++ "/" ++ "ABC-1") "fix https://j/browse/ABC-1 now" /\
  format_message "https://j/browse" "fix https://j/browse/ABC-1 now" "ABC-1" "branch name"
  = ret "fix https://j/browse/ABC-1 now".
Proof.
  assert (H : occurs ("https://j/browse" ++ "/" ++ "ABC-1")
                "fix https://j/browse/ABC-1 now").
  { now exists "fix ", " now". }
  split; [exact H|].
  exact (format_message_present "https://j/browse" "fix https://j/browse/ABC-1 now"
           "ABC-1" "branch name" H).
Defined.

Lemma rewrite_ctx_precedence_witness :
  (* the branch name gives a reference *)
  (exists notices message',
      format_message "https://j/browse" "fix bug"
        (extract_project_and_id "feature/ABC-1-login") "branch name"
      = (notices, inr message') /\
      ~ In CallBookmarks notices /\
      forall (client : Client) (original : Ctx unit -> unit -> M (Ctx unit)),
        rewrite_ctx client "https://j/browse" original
          (mkCtx "feature/ABC-1-login" "fix bug" tt) tt =
        after notices
          (original (set_text (mkCtx "feature/ABC-1-login" "fix bug" tt) message') tt)) /\
  (* neither the branch name nor a bookmark does *)
  (forall original : Ctx unit -> unit -> M (Ctx unit),
      rewrite_ctx bare "https://j/browse" original (mkCtx "default" "fix bug" tt) tt =
      after [CallBookmarks] (original (mkCtx "default" "fix bug" tt) tt)) /\
  (* only the active bookmark does *)
  (exists notices message',
      format_message "https://j/browse" "fix bug"
        (extract_project_and_id "fix/XY-42-crash") "bookmark name"
      = (notices, inr message') /\
      forall original : Ctx unit -> unit -> M (Ctx unit),
        rewrite_ctx marked "https://j/browse" original (mkCtx "default" "fix bug" tt) tt =
        after (CallBookmarks :: notices)
          (original (set_text (mkCtx "default" "fix bug" tt) message') tt)).
Proof.
  split; [|split].
  - apply (proj1 (rewrite_ctx_precedence unit (Ctx unit) unit "https://j/browse"
                    (mkCtx "feature/ABC-1-login" "fix bug" tt) tt)).
    vm_compute. discriminate.
  - apply (proj1 (proj2 (rewrite_ctx_precedence unit (Ctx unit) unit "https://j/browse"
                           (mkCtx "default" "fix bug" tt) tt)) bare).
    + reflexivity.
    + left. reflexivity.
  - apply (proj2 (proj2 (rewrite_ctx_precedence unit (Ctx unit) unit "https://j/browse"
                           (mkCtx "default" "fix bug" tt) tt))
             marked ("fix/XY-42-crash", 5%Z, "b2")).
    + reflexivity.
    + simpl. lia.
    + reflexivity.
    + vm_compute. discriminate.
Defined.

Lemma install_missing_config_witness :
  absent bare "jira.url" /\
  let result := append_jira_commit_message bare (mkRepo echo) in
  repo_after result = mkRepo echo /\
  outcome result =
    ([CallConfig "jira";
      Print "ERROR: Missing configuration key 'jira.url'";
      Print help_text],
     inl (SystemExit 1)) /\
  stdout (fst (outcome result)) =
    "ERROR: Missing configuration key 'jira.url'" ++ NL ++ help_text ++ NL.
Proof.
  assert (H : absent bare "jira.url").
  { right. eexists. split; [reflexivity|].
    intros entry [<- | []]. simpl. discriminate. }
  split; [exact H|].
  exact (install_missing_config unit (Ctx unit) unit bare (mkRepo echo) H).
Defined.

Lemma rewrite_ctx_frame_witness :
  (extract_project_and_id "default" <> "" \/ host_ok marked) /\
  exists notices message',
    (forall ev, In ev notices ->
                ev = CallBookmarks \/ exists line, ev = Print line) /\
    forall original : Ctx unit -> unit -> M (Ctx unit),
      let ctx' := {| branch := "default"; _text := message'; rest := tt |} in
      fst (rewrite_ctx marked "https://j/browse" original (mkCtx "default" "fix bug" tt) tt)
      = (notices ++ fst (original ctx' tt))%list /\
      snd (rewrite_ctx marked "https://j/browse" original (mkCtx "default" "fix bug" tt) tt)
      = snd (original ctx' tt).
Proof.
  assert (H : extract_project_and_id "default" <> "" \/ host_ok marked).
  { right. unfold host_ok. simpl. lia. }
  split; [exact H|].
  exact (rewrite_ctx_frame unit (Ctx unit) unit marked "https://j/browse"
           (mkCtx "default" "fix bug" tt) tt H).
Defined.

End Runs.


(** * Further properties of the extractor *)

Module ExtractFacts.
Import Str Re Spec Parts StrFacts ReFacts.

Lemma append_same_length (a b a' b' : string) :
  a ++ b = a' ++ b' -> String.length a = String.length a' ->
  a = a' /\ b = b'.
Proof.
  revert a'; induction a as [|c a IH]; intros [|c' a']; simpl;
    try discriminate; auto.
  intros [= -> H] [= Hl]. destruct (IH _ H Hl) as [-> ->]. now split.
Qed.

(** A text cut in two ways, the second prefix at least as long as the
    first: the second prefix extends the first. *)
Lemma append_longer (a b p t : string) :
  a ++ b = p ++ t -> String.length a <= String.length p ->
  exists p', p = a ++ p' /\ b = p' ++ t.
Proof.
  revert p; induction a as [|c a IH]; intros p; simpl.
  - intros -> _. now exists p.
  - destruct p as [|c' p]; simpl; [intros _ H; lia|].
    intros [= -> H] Hl. destruct (IH p H) as (p' & -> & ->); [lia|].
    now exists p'.
Qed.

Lemma ends_with_slash (a p x : string) :
  a ++ p = x ++ "/" -> p <> "" -> exists y, p = y ++ "/".
Proof.
  revert x; induction a as [|c a IH]; intros x; simpl.
  - intros -> _. now exists x.
  - destruct x as [|c' x]; simpl.
    + intros [= _ H] Hp. destruct a; [simpl in H; contradiction | discriminate].
    + intros [= _ H]. now apply (IH x).
Qed.

(** A prefix within the first line stops before a newline. *)
Lemma prefix_before_newline (l r p t : string) :
  l ++ String nl r = p ++ t -> all dot p = true ->
  exists t', l = p ++ t' /\ t = t' ++ String nl r.
Proof.
  revert l; induction p as [|c p IH]; intros l; simpl.
  - intros <- _. now exists l.
  - rewrite andb_true_iff. destruct l as [|c' l]; simpl.
    + intros [= <- _] [Hc _]. discriminate.
    + intros [= -> H] [_ Hp]. destruct (IH l H Hp) as (t' & -> & ->).
      now exists t'.
Qed.

Lemma span_stop p a c r : p c = false -> span p (a ++ String c r) = span p a.
Proof.
  intros Hc. induction a as [|x a IH]; simpl; [now rewrite Hc|].
  destruct (p x); congruence.
Qed.

Lemma skip_stop p a c r :
  p c = false -> skip p (a ++ String c r) = skip p a ++ String c r.
Proof.
  intros Hc. induction a as [|x a IH]; simpl; [now rewrite Hc|].
  now destruct (p x).
Qed.

(** What follows a newline plays no part in the leading ticket. *)
Lemma leading_ticket_newline a r :
  leading_ticket (a ++ String nl r) = leading_ticket a.
Proof.
  unfold leading_ticket.
  rewrite span_stop, skip_stop by reflexivity.
  destruct (skip upper a) as [|c t]; simpl; [reflexivity|].
  now rewrite span_stop by reflexivity.
Qed.

Lemma skip_head p s c r : skip p s = String c r -> p c = false.
Proof.
  induction s as [|x s IH]; simpl; [discriminate|].
  destruct (p x) eqn:E; [exact IH | congruence].
Qed.

(** The leading ticket takes every digit: what follows it is no digit. *)
Lemma leading_ticket_rest t tk :
  leading_ticket t = Some tk ->
  exists trailing,
    t = tk ++ trailing /\
    (trailing = "" \/ exists c r, trailing = String c r /\ digit c = false).
Proof.
  unfold leading_ticket.
  pose proof (span_skip upper t) as Ht.
  destruct (skip upper t) as [|c u]; [discriminate|].
  pose proof (span_skip digit u) as Hu.
  destruct (Ascii.eqb c hyphen) eqn:Ec; [|discriminate].
  destruct (truthy (span upper t)); [|discriminate].
  destruct (truthy (span digit u)); [|discriminate].
  intros [= <-]. apply Ascii.eqb_eq in Ec. subst c.
  exists (skip digit u). split.
  - rewrite !append_assoc. simpl. now rewrite Hu.
  - destruct (skip digit u) as [|c r] eqn:E; [now left | right].
    exists c, r. split; trivial. now apply (skip_head digit u c r).
Qed.

(** A ticket is its own leading ticket. *)
Lemma leading_ticket_exact tk : is_ticket tk -> leading_ticket tk = Some tk.
Proof.
  intros (u & d & -> & Hu & Hau & Hd & Had). unfold leading_ticket.
  change ("-" ++ d) with (String hyphen d).
  destruct (span_run upper u hyphen d Hau eq_refl) as [-> ->].
  rewrite Ascii.eqb_refl.
  pose proof (span_append_all digit d "" Had) as Hs.
  rewrite append_empty_r in Hs. simpl in Hs. rewrite append_empty_r in Hs.
  rewrite Hs.
  destruct u; [contradiction|]. destruct d; [contradiction|]. reflexivity.
Qed.

(** The longest cut decides the result. *)
Lemma extract_of_longest_cut s pre t tk :
  longest_cut s pre t -> leading_ticket t = Some tk ->
  extract_project_and_id s = tk.
Proof.
  intros [Hc Hmax] Hl.
  destruct (extract_cases s) as [[Hno _] | (pre0 & t0 & tk0 & [Hc0 Hmax0] & Hl0 & ->)].
  - now destruct (Hno _ _ Hc).
  - pose proof (Hmax _ _ Hc0). pose proof (Hmax0 _ _ Hc).
    destruct Hc as (Hs & _), Hc0 as (Hs0 & _). rewrite Hs in Hs0.
    destruct (append_same_length _ _ _ _ Hs0) as [-> ->]; [lia|].
    congruence.
Qed.

Lemma extract_empty_no_cut s :
  extract_project_and_id s = "" <-> forall pre t, ~ cut s pre t.
Proof.
  destruct (extract_cases s) as [[Hno He] | (pre & t & tk & [Hc _] & Hl & He)].
  - tauto.
  - split.
    + intros H. rewrite H in He. subst tk.
      destruct (leading_ticket_form _ _ Hl) as [Htk _].
      now destruct (ticket_not_empty _ Htk).
    + intros Hno. now destruct (Hno _ _ Hc).
Qed.

Lemma all_occurs p r s : occurs r s -> all p s = true -> all p r = true.
Proof.
  intros (a & b & ->). rewrite !all_append, !andb_true_iff. tauto.
Qed.

End ExtractFacts.

Section ExtractorMore.
Import Str Re Spec Parts StrFacts ReFacts ExtractFacts.

(** X1.  The extractor is idempotent: a result is a ticket, and a ticket
    is extracted to itself. *)
Theorem extract_idempotent :
  forall s,
    extract_project_and_id (extract_project_and_id s) = extract_project_and_id s.
Proof.
  intros s.
  destruct (extract_cases s) as [[_ ->] | (pre & t & tk & _ & Hl & ->)];
    [reflexivity|].
  destruct (leading_ticket_form _ _ Hl) as [Htk _].
  apply (extract_of_longest_cut tk "" tk); [|now apply leading_ticket_exact].
  split.
  - repeat split; [now left|]. now rewrite leading_ticket_exact.
  - intros pre' t' (Hs & [-> | [q ->]] & _); [simpl; lia|].
    pose proof (ticket_no_slash _ Htk) as Hn.
    rewrite Hs, !all_append in Hn. simpl in Hn.
    rewrite andb_false_r in Hn. discriminate.
Qed.

(** X2.  On a text without a newline the extractor finds a reference
    exactly when the text is an optional slash-terminated prefix followed
    by uppercase letters, a hyphen and digits. *)
Theorem extract_agrees_on_one_line :
  forall s,
    all dot s = true ->
    (matches_pattern s <-> extract_project_and_id s <> "").
Proof.
  intros s Hs. split; [now apply matches_extracted|].
  intros He.
  destruct (extract_cases s) as [[_ H] | (pre & t & tk & [Hc _] & _)];
    [contradiction|].
  now apply (cut_matches s pre t).
Qed.

(** X3.  Putting a one-line directory prefix before a name that gives a
    reference does not change the reference. *)
Theorem extract_under_directory :
  forall q s,
    all dot q = true -> extract_project_and_id s <> "" ->
    extract_project_and_id (q ++ "/" ++ s) = extract_project_and_id s.
Proof.
  intros q s Hq He.
  destruct (extract_cases s)
    as [[_ H] | (pre & t & tk & [(Hs & Hpre & Hdot & Ht) Hmax] & Hl & Hx)];
    [contradiction|].
  rewrite Hx. apply (extract_of_longest_cut _ (q ++ "/" ++ pre) t); trivial.
  split.
  - repeat split; trivial.
    + now rewrite Hs, !append_assoc.
    + right. destruct Hpre as [-> | [p ->]].
      * now exists q.
      * exists (q ++ "/" ++ p). now rewrite !append_assoc.
    + rewrite !all_append, Hq, Hdot. reflexivity.
  - intros pre' t' (Hs' & Hpre' & Hdot' & Ht').
    rewrite !length_append. simpl.
    destruct (Nat.le_gt_cases (String.length pre') (String.length q + 1))
      as [|Hgt]; [lia|].
    rewrite <- (append_assoc q "/" s) in Hs'.
    destruct (append_longer (q ++ "/") s pre' t' Hs') as (p' & -> & Hsp).
    { rewrite length_append. simpl. lia. }
    rewrite !length_append in Hgt |- *. simpl in Hgt |- *.
    assert (Hp' : p' <> "") by (destruct p'; [simpl in Hgt; lia | discriminate]).
    destruct Hpre' as [H0 | [x Hx']].
    { destruct q; discriminate. }
    destruct (ends_with_slash _ _ _ Hx' Hp') as [y Hy].
    rewrite all_append in Hdot'. apply andb_true_iff in Hdot' as [_ Hdot'].
    assert (Hc : cut s p' t').
    { repeat split; trivial. right. now exists y. }
    specialize (Hmax _ _ Hc). lia.
Qed.

(** X4.  Only the first line counts: the text from the first newline on
    plays no part in the result. *)
Theorem extract_first_line :
  forall l trailing,
    extract_project_and_id (l ++ NL ++ trailing) = extract_project_and_id l.
Proof.
  intros l r. change (NL ++ r) with (String nl r).
  assert (Hback : forall pre t,
             cut (l ++ String nl r) pre t ->
             exists t', t = t' ++ String nl r /\ cut l pre t').
  { intros pre t (Hs & Hpre & Hdot & Ht).
    destruct (prefix_before_newline l r pre t Hs Hdot) as (t' & -> & ->).
    exists t'. rewrite leading_ticket_newline in Ht. repeat split; trivial. }
  destruct (extract_cases l)
    as [[Hno ->] | (pre & t & tk & [(Hs & Hpre & Hdot & Ht) Hmax] & Hl & ->)].
  - apply extract_empty_no_cut. intros pre t Hc.
    destruct (Hback _ _ Hc) as (t' & _ & Hc'). now apply (Hno pre t').
  - apply (extract_of_longest_cut _ pre (t ++ String nl r)).
    + split.
      * repeat split; trivial.
        -- now rewrite Hs, append_assoc.
        -- now rewrite leading_ticket_newline.
      * intros pre' t' Hc. destruct (Hback _ _ Hc) as (t'' & _ & Hc').
        now apply (Hmax pre' t'').
    + now rewrite leading_ticket_newline.
Qed.

(** X5.  A name without an uppercase letter, without a hyphen or without
    a digit gives no reference. *)
Theorem extract_needs_letter_hyphen_digit :
  forall s,
    (all (fun c => negb (upper c)) s = true -> extract_project_and_id s = "") /\
    (all (fun c => negb (Ascii.eqb c hyphen)) s = true ->
     extract_project_and_id s = "") /\
    (all (fun c => negb (digit c)) s = true -> extract_project_and_id s = "").
Proof.
  intros s.
  destruct (extract_cases s) as [[_ ->] | (pre & t & tk & [Hc _] & Hl & ->)];
    [tauto|].
  destruct (leading_ticket_form _ _ Hl) as ((u & d & -> & Hu & Hau & Hd & Had) & r & ->).
  destruct Hc as (-> & _).
  assert (Ho : occurs (u ++ "-" ++ d) (pre ++ (u ++ "-" ++ d) ++ r))
    by now exists pre, r.
  repeat split; intros Hall; apply (all_occurs _ _ _ Ho) in Hall;
    rewrite !all_append in Hall; simpl in Hall;
    repeat (apply andb_true_iff in Hall as [? Hall] || apply andb_true_iff in Hall as [Hall ?]).
  - destruct u as [|c u]; [contradiction|]. simpl in *.
    apply andb_true_iff in Hau as [Hc _]. rewrite Hc in *. discriminate.
  - discriminate.
  - destruct d as [|c d]; [contradiction|]. simpl in *.
    apply andb_true_iff in Had as [Hc _].
    repeat match goal with H : _ && _ = true |- _ => apply andb_true_iff in H as [? ?] end.
    rewrite Hc in *. discriminate.
Qed.

(** X6.  A reference is taken with all its digits: in the input it stands
    after a prefix that is empty or ends with a slash, and what follows it
    does not begin with a digit. *)
Theorem extract_takes_all_digits :
  forall s,
    extract_project_and_id s <> "" ->
    exists pre trailing,
      s = pre ++ extract_project_and_id s ++ trailing /\
      is_prefix pre /\
      (trailing = "" \/ exists c r, trailing = String c r /\ digit c = false).
Proof.
  intros s He.
  destruct (extract_cases s) as [[_ H] | (pre & t & tk & [Hc _] & Hl & ->)];
    [contradiction|].
  destruct (leading_ticket_rest _ _ Hl) as (r & -> & Hr).
  destruct Hc as (-> & Hpre & _). now exists pre, r.
Qed.

End ExtractorMore.

(** * Further properties of the formatter and of the interceptor *)

Module MoreFacts.
Import Str Spec Parts StrFacts FormatFacts HookFacts.

Lemma rstrip_blank m : all isspace m = true -> rstrip m = "".
Proof.
  induction m as [|c m IH]; simpl; trivial.
  rewrite andb_true_iff. intros [Hc Hm]. now rewrite (IH Hm), Hc.
Qed.

Lemma strip_blank m : all isspace m = true -> strip m = "".
Proof. intros H. unfold strip. now rewrite rstrip_blank. Qed.

(** A link has a slash, so it does not occur in a blank message. *)
Lemma blank_no_link b r m :
  all isspace m = true -> ~ occurs (b ++ "/" ++ r) m.
Proof.
  intros Hm Ho. apply (ExtractFacts.all_occurs isspace _ _ Ho) in Hm.
  rewrite !all_append in Hm. simpl in Hm.
  rewrite andb_false_r in Hm. discriminate.
Qed.

Lemma occurs_longer sub x s : occurs (sub ++ x) s -> occurs sub s.
Proof.
  intros (a & c & ->). exists a, (x ++ c). now rewrite !append_assoc.
Qed.

Lemma format_message_absent b m r w :
  ~ occurs (b ++ "/" ++ r) m ->
  format_message b m r w =
  ([Print (NL ++ "Appended JIRA '" ++ (b ++ "/" ++ r)
              ++ "' to commit message (detected from " ++ w ++ ")." ++ NL)],
   inr (strip m ++ NL ++ NL ++ (b ++ "/" ++ r) ++ NL)).
Proof.
  intros H. unfold format_message.
  destruct (contains (b ++ "/" ++ r) m) eqn:Hc.
  - apply contains_iff in Hc. contradiction.
  - reflexivity.
Qed.

Lemma format_message_there b m r w :
  occurs (b ++ "/" ++ r) m -> format_message b m r w = ret m.
Proof.
  intros H. apply contains_iff in H. unfold format_message. now rewrite H.
Qed.

Lemma after_after {A : Type} tr tr' (m : M A) :
  after tr (after tr' m) = after (tr ++ tr') m.
Proof. unfold after. simpl. now rewrite app_assoc. Qed.

Lemma bind_ret {A B : Type} (a : A) (f : A -> M B) : bind (ret a) f = f a.
Proof. unfold ret. now rewrite bind_after, after_nil. Qed.

Section Reference.
Variable O : Type.
Variable client : Client.

Lemma reference_branch (ctx : Ctx O) :
  truthy (extract_project_and_id (branch ctx)) = true ->
  reference client ctx = extract_project_and_id (branch ctx).
Proof. intros H. unfold reference. now rewrite H. Qed.

Lemma reference_inactive (ctx : Ctx O) :
  truthy (extract_project_and_id (branch ctx)) = false ->
  snd (bookmarks_reply client) = (-1)%Z ->
  reference client ctx = "".
Proof.
  intros H Ha. unfold reference. rewrite H.
  destruct (bookmarks_reply client) as [bookmarks active].
  simpl in Ha. now subst active.
Qed.

Lemma reference_bookmark (ctx : Ctx O) entry :
  truthy (extract_project_and_id (branch ctx)) = false ->
  snd (bookmarks_reply client) <> (-1)%Z ->
  Py.index (fst (bookmarks_reply client)) (snd (bookmarks_reply client))
  = Some entry ->
  reference client ctx = extract_project_and_id (fst (fst entry)).
Proof.
  intros H Ha Hi. unfold reference. rewrite H.
  destruct (bookmarks_reply client) as [bookmarks active].
  simpl in Ha, Hi. apply Z.eqb_neq in Ha. now rewrite Ha, Hi.
Qed.

Lemma reference_set_text (ctx : Ctx O) message :
  reference client (set_text ctx message) = reference client ctx.
Proof. reflexivity. Qed.

End Reference.

Section Runs.
Variables E R O : Type.
Variable client : Client.
Variable b : string.

(** Nothing to append: no notice, and the context reaches the original
    commit as it came. *)
Lemma run_quiet (ctx : Ctx O) (error : E) :
  extract_project_and_id (branch ctx) <> "" \/ host_ok client ->
  reference client ctx = "" \/
  occurs (b ++ "/" ++ reference client ctx) (_text ctx) ->
  exists quiet,
    (forall ev, In ev quiet -> ev = CallBookmarks) /\
    forall original : Ctx O -> E -> M R,
      rewrite_ctx client b original ctx error = after quiet (original ctx error).
Proof.
  intros Hok Hq.
  destruct (truthy (extract_project_and_id (branch ctx))) eqn:Hb.
  - rewrite (reference_branch O client ctx Hb) in Hq.
    destruct Hq as [Hq | Hq].
    { rewrite Hq in Hb. discriminate. }
    exists []. split; [intros ev []|]. intros original.
    rewrite rewrite_ctx_branch, format_message_there, bind_ret by trivial.
    now rewrite set_text_same, after_nil.
  - apply truthy_false in Hb as Hb'.
    destruct Hok as [Hok | Hok]; [contradiction|].
    exists [CallBookmarks]. split; [intros ev [<- | []]; reflexivity|].
    intros original.
    destruct (Z.eq_dec (snd (bookmarks_reply client)) (-1)) as [Ha | Ha].
    + now apply rewrite_ctx_inactive.
    + destruct (active_entry client Hok Ha) as [entry Hi].
      rewrite (reference_bookmark O client ctx entry Hb Ha Hi) in Hq.
      rewrite (rewrite_ctx_bookmark E R O client b original ctx error entry)
        by trivial.
      destruct (truthy (extract_project_and_id (fst (fst entry)))) eqn:Hn.
      * destruct Hq as [Hq | Hq]; [rewrite Hq in Hn; discriminate|].
        now rewrite format_message_there, bind_ret, set_text_same.
      * now rewrite bind_ret, set_text_same.
Qed.

(** A link to append: one notice that names the link and where the
    reference was found. *)
Lemma run_loud (ctx : Ctx O) (error : E) :
  extract_project_and_id (branch ctx) <> "" \/ host_ok client ->
  reference client ctx <> "" ->
  ~ occurs (b ++ "/" ++ reference client ctx) (_text ctx) ->
  exists calls,
    (forall ev, In ev calls -> ev = CallBookmarks) /\
    forall original : Ctx O -> E -> M R,
      rewrite_ctx client b original ctx error =
      after
        (calls ++
         [Print (NL ++ "Appended JIRA '" ++ (b ++ "/" ++ reference client ctx)
                    ++ "' to commit message (detected from "
                    ++ (if truthy (extract_project_and_id (branch ctx))
                        then "branch name" else "bookmark name")
                    ++ ")." ++ NL)])
        (original
           (set_text ctx
              (strip (_text ctx) ++ NL ++ NL
               ++ (b ++ "/" ++ reference client ctx) ++ NL))
           error).
Proof.
  intros Hok Hf Hq.
  destruct (truthy (extract_project_and_id (branch ctx))) eqn:Hb.
  - rewrite (reference_branch O client ctx Hb) in *.
    exists []. split; [intros ev []|]. intros original.
    rewrite rewrite_ctx_branch, format_message_absent by trivial.
    now rewrite bind_after.
  - apply truthy_false in Hb as Hb'.
    destruct Hok as [Hok | Hok]; [contradiction|].
    destruct (Z.eq_dec (snd (bookmarks_reply client)) (-1)) as [Ha | Ha].
    { now rewrite (reference_inactive O client ctx Hb Ha) in Hf. }
    destruct (active_entry client Hok Ha) as [entry Hi].
    rewrite (reference_bookmark O client ctx entry Hb Ha Hi) in *.
    exists [CallBookmarks]. split; [intros ev [<- | []]; reflexivity|].
    intros original.
    rewrite (rewrite_ctx_bookmark E R O client b original ctx error entry)
      by trivial.
    apply ReFacts.truthy_true in Hf. rewrite Hf.
    rewrite format_message_absent by trivial.
    now rewrite bind_after, after_after.
Qed.

End Runs.

Lemma next_with_key_first key (before : list cfg_entry) (entry : cfg_entry)
    (rest : list cfg_entry) :
  (forall e, In e before -> snd (fst e) <> key) ->
  snd (fst entry) = key ->
  next_with_key key (before ++ entry :: rest)%list = ret entry.
Proof.
  intros Hno He. induction before as [|c before IH]; simpl.
  - rewrite <- He, String.eqb_refl. reflexivity.
  - destruct (String.eqb_spec (snd (fst c)) key) as [Hc | _].
    + destruct (Hno c); auto. now left.
    + apply IH. intros e Hin. apply Hno. now right.
Qed.

Lemma get_config_trace client key :
  fst (get_config client key) = [CallConfig "jira"].
Proof.
  unfold get_config, client_config.
  destruct (config_reply client "jira") as [e | entries]; cbn.
  - now destruct e.
  - assert (H : forall l, exists r : exn + cfg_entry, next_with_key key l = ([], r)).
    { induction l as [|c l [r IH]]; simpl; [now eexists|].
      destruct (String.eqb (snd (fst c)) key); [now eexists | eauto]. }
    destruct (H entries) as [r ->]. cbn. destruct r as [e|cfg]; [now destruct e | reflexivity].
Qed.

Lemma get_config_present client key (before : list cfg_entry)
    (entry : cfg_entry) (rest : list cfg_entry) :
  config_reply client "jira" = inr (before ++ entry :: rest)%list ->
  (forall e, In e before -> snd (fst e) <> key) ->
  snd (fst entry) = key ->
  get_config client key = ([CallConfig "jira"], inr (snd entry)).
Proof.
  intros Hr Hno He. unfold get_config, client_config, bind, emit.
  rewrite Hr. cbv beta iota.
  now rewrite (next_with_key_first key before entry rest Hno He).
Qed.

End MoreFacts.

Module ComposeFacts.
Import Str Spec Parts StrFacts FormatFacts HookFacts MoreFacts.

Section Again.
Variables E R O : Type.
Variable client : Client.
Variable b : string.

(** A run, then a run on the context the first one produced. *)
Lemma run_again (ctx : Ctx O) (error : E) :
  extract_project_and_id (branch ctx) <> "" \/ host_ok client ->
  exists notices message' quiet,
    (forall ev, In ev quiet -> ev = CallBookmarks) /\
    (reference client ctx <> "" ->
     occurs (b ++ "/" ++ reference client ctx) message') /\
    (forall original : Ctx O -> E -> M R,
        rewrite_ctx client b original ctx error =
        after notices (original (set_text ctx message') error)) /\
    (forall original : Ctx O -> E -> M R,
        rewrite_ctx client b original (set_text ctx message') error =
        after quiet (original (set_text ctx message') error)).
Proof.
  intros Hok.
  destruct (rewrite_ctx_run E R O client b ctx error Hok) as (tr & _ & Hrun).
  assert (Hlink : reference client ctx <> "" ->
                  occurs (b ++ "/" ++ reference client ctx) (processed b client ctx)).
  { intros Hf. unfold processed. apply ReFacts.truthy_true in Hf. rewrite Hf.
    apply link_occurs_linked. }
  destruct (run_quiet E R O client b (set_text ctx (processed b client ctx)) error)
    as (quiet & Hquiet & Hrun2); trivial.
  { rewrite reference_set_text. simpl.
    destruct (string_dec (reference client ctx) "") as [Hr | Hr];
      [now left | right; now apply Hlink]. }
  now exists tr, (processed b client ctx), quiet.
Qed.

End Again.

End ComposeFacts.

Section FormatterMore.
Import Str Spec Parts StrFacts FormatFacts MoreFacts.

(** X7.  Whatever the message, the one the formatter returns contains the
    link. *)
Theorem format_message_links :
  forall b m r whence,
  exists m1,
    snd (format_message b m r whence) = inr m1 /\ occurs (b ++ "/" ++ r) m1.
Proof.
  intros b m r w. exists (linked b m r). split.
  - now destruct (format_message_run b m r w) as (tr & _ & ->).
  - apply link_occurs_linked.
Qed.

(** X8.  The test for the link is a search for a substring: a message
    that holds the link of a longer reference, [r] followed by more text,
    is taken to hold the link of [r] and is returned as it is. *)
Theorem format_message_shadowed :
  forall b m r more whence,
    occurs (b ++ "/" ++ r ++ more) m ->
    format_message b m r whence = ret m.
Proof.
  intros b m r x w H. apply format_message_there.
  apply (occurs_longer _ x). now rewrite !append_assoc.
Qed.

(** X9.  A message that is empty or all white space, as it cannot hold
    the link, becomes two newlines, the link and a newline. *)
Theorem format_message_blank :
  forall b m r whence,
    all isspace m = true ->
    snd (format_message b m r whence)
    = inr (NL ++ NL ++ (b ++ "/" ++ r) ++ NL).
Proof.
  intros b m r w Hm.
  rewrite (format_message_absent b m r w (blank_no_link b r m Hm)).
  simpl. now rewrite (strip_blank m Hm).
Qed.

End FormatterMore.

Section InterceptorMore.
Import Str Spec Parts StrFacts FormatFacts HookFacts MoreFacts ComposeFacts.

Variables E R O : Type.

(** X10.  When the branch name gives no reference and the index of the
    active bookmark is neither [-1] nor that of an entry, the interceptor
    raises [IndexError] after asking for the bookmarks, and the original
    commit does not run. *)
Theorem rewrite_ctx_index_error :
  forall (client : Client) (jira_url_base : string) (ctx : Ctx O) (error : E),
    extract_project_and_id (branch ctx) = "" ->
    snd (bookmarks_reply client) <> (-1)%Z ->
    Py.index (fst (bookmarks_reply client)) (snd (bookmarks_reply client)) = None ->
    forall original : Ctx O -> E -> M R,
      rewrite_ctx client jira_url_base original ctx error
      = ([CallBookmarks], inl IndexError).
Proof.
  intros client b ctx error Hb Ha Hi original.
  unfold rewrite_ctx, client_bookmarks. rewrite Hb.
  destruct (bookmarks_reply client) as [bookmarks active].
  simpl in Ha, Hi. apply Z.eqb_neq in Ha.
  cbn [truthy emit ret bind app]. now rewrite Ha, Hi.
Qed.

(** X11.  Committing again the context a run has produced (an amend, a
    second commit) changes nothing: the second run prints no notice and
    hands the same context to the original commit. *)
Theorem rewrite_ctx_again :
  forall (client : Client) (jira_url_base : string) (ctx : Ctx O) (error : E),
    extract_project_and_id (branch ctx) <> "" \/ host_ok client ->
    exists notices message' quiet,
      (forall ev, In ev quiet -> ev = CallBookmarks) /\
      forall original : Ctx O -> E -> M R,
        rewrite_ctx client jira_url_base original ctx error =
        after notices (original (set_text ctx message') error) /\
        rewrite_ctx client jira_url_base original (set_text ctx message') error =
        after quiet (original (set_text ctx message') error).
Proof.
  intros client b ctx error Hok.
  destruct (run_again E R O client b ctx error Hok)
    as (tr & m' & quiet & Hq & _ & H1 & H2).
  exists tr, m', quiet. split; trivial. intros original. now split.
Qed.

(** X12.  Whenever a reference is found, in the branch name or in the
    name of the active bookmark, the message the original commit receives
    contains its link. *)
Theorem rewrite_ctx_links :
  forall (client : Client) (jira_url_base : string) (ctx : Ctx O) (error : E),
    extract_project_and_id (branch ctx) <> "" \/ host_ok client ->
    reference client ctx <> "" ->
    exists notices message',
      occurs (jira_url_base ++ "/" ++ reference client ctx) message' /\
      forall original : Ctx O -> E -> M R,
        rewrite_ctx client jira_url_base original ctx error =
        after notices (original (set_text ctx message') error).
Proof.
  intros client b ctx error Hok Hf.
  destruct (run_again E R O client b ctx error Hok)
    as (tr & m' & quiet & _ & Hl & H1 & _).
  exists tr, m'. split; auto.
Qed.

(** X13.  The interceptor prints a notice exactly when it changes the
    message.  With no reference, or with the link already in the message,
    it prints nothing and the context is untouched; otherwise it prints
    one notice, which names the link and whether the reference came from
    the branch name or from the bookmark name. *)
Theorem rewrite_ctx_notice :
  forall (client : Client) (jira_url_base : string) (ctx : Ctx O) (error : E),
    extract_project_and_id (branch ctx) <> "" \/ host_ok client ->
    let found := reference client ctx in
    let jira_link := jira_url_base ++ "/" ++ found in
    (found = "" \/ occurs jira_link (_text ctx) ->
     exists quiet,
       (forall ev, In ev quiet -> ev = CallBookmarks) /\
       forall original : Ctx O -> E -> M R,
         rewrite_ctx client jira_url_base original ctx error =
         after quiet (original ctx error)) /\
    (found <> "" -> ~ occurs jira_link (_text ctx) ->
     exists calls,
       (forall ev, In ev calls -> ev = CallBookmarks) /\
       forall original : Ctx O -> E -> M R,
         rewrite_ctx client jira_url_base original ctx error =
         after
           (calls ++
            [Print (NL ++ "Appended JIRA '" ++ jira_link
                       ++ "' to commit message (detected from "
                       ++ (if truthy (extract_project_and_id (branch ctx))
                           then "branch name" else "bookmark name")
                       ++ ")." ++ NL)])
           (original
              (set_text ctx (strip (_text ctx) ++ NL ++ NL ++ jira_link ++ NL))
              error)).
Proof.
  intros client b ctx error Hok found link. split.
  - now apply run_quiet.
  - now apply run_loud.
Qed.

(** X14.  When the section lists [jira.url], the hook prints nothing and
    replaces the commit operation of the repository by the interceptor,
    built on the value of the first entry with that key, whatever the
    section the entry names, and on the operation that was there. *)
Theorem install_present :
  forall (client : Client) (repo : Repo E R O)
         (before : list cfg_entry) (entry : cfg_entry) (rest : list cfg_entry),
    config_reply client "jira" = inr (before ++ entry :: rest)%list ->
    (forall e, In e before -> snd (fst e) <> "jira.url") ->
    snd (fst entry) = "jira.url" ->
    let result := append_jira_commit_message client repo in
    outcome result = ([CallConfig "jira"], inr tt) /\
    repo_after result =
      {| commitctx := rewrite_ctx client (snd entry) (commitctx repo) |}.
Proof.
  intros client repo before entry rest Hr Hno He result. subst result.
  unfold append_jira_commit_message.
  rewrite (get_config_present client "jira.url" before entry rest Hr Hno He).
  now split.
Qed.

(** X15.  Installing is all or nothing: either the hook returns and the
    commit operation is the interceptor on the former operation, or it
    raises and the repository is as it was. *)
Theorem install_all_or_nothing :
  forall (client : Client) (repo : Repo E R O),
    let result := append_jira_commit_message client repo in
    (exists jira_url_base,
        outcome result = ([CallConfig "jira"], inr tt) /\
        repo_after result =
          {| commitctx := rewrite_ctx client jira_url_base (commitctx repo) |}) \/
    (exists e, snd (outcome result) = inl e /\ repo_after result = repo).
Proof.
  intros client repo result. subst result.
  unfold append_jira_commit_message.
  pose proof (get_config_trace client "jira.url") as Ht.
  destruct (get_config client "jira.url") as [tr [e | url]]; simpl in Ht; subst tr.
  - right. destruct e; eexists; split; reflexivity.
  - left. exists url. now split.
Qed.

(** X16.  Installing the hook twice appends the link once: the second
    interceptor wraps the first, the first finds the link in the message
    the second produced, and the original commit receives that message. *)
Theorem install_twice :
  forall (client : Client) (repo : Repo E R O)
         (before : list cfg_entry) (entry : cfg_entry) (rest : list cfg_entry)
         (ctx : Ctx O) (error : E),
    config_reply client "jira" = inr (before ++ entry :: rest)%list ->
    (forall e, In e before -> snd (fst e) <> "jira.url") ->
    snd (fst entry) = "jira.url" ->
    extract_project_and_id (branch ctx) <> "" \/ host_ok client ->
    let once := repo_after (append_jira_commit_message client repo) in
    let twice := repo_after (append_jira_commit_message client once) in
    exists notices message' quiet,
      (forall ev, In ev quiet -> ev = CallBookmarks) /\
      commitctx once ctx error =
        after notices (commitctx repo (set_text ctx message') error) /\
      commitctx twice ctx error =
        after (notices ++ quiet) (commitctx repo (set_text ctx message') error).
Proof.
  intros client repo before entry rest ctx error Hr Hno He Hok once twice.
  subst twice once. unfold append_jira_commit_message.
  rewrite (get_config_present client "jira.url" before entry rest Hr Hno He).
  cbn [repo_after commitctx].
  destruct (run_again E R O client (snd entry) ctx error Hok)
    as (tr & m' & quiet & Hq & _ & H1 & H2).
  exists tr, m', quiet. repeat split; trivial.
  now rewrite H1, H2, after_after.
Qed.

End InterceptorMore.

(** ** Concrete runs of the further properties *)

Module MoreRuns.
Import Str Re Spec Parts Sample StrFacts ReFacts FormatFacts HookFacts.

Lemma marked_ok : extract_project_and_id "default" <> "" \/ host_ok marked.
Proof. right. unfold host_ok. simpl. lia. Qed.

Lemma extract_agrees_on_one_line_witness :
  matches_pattern "feature/ABC-123-x" <->
  extract_project_and_id "feature/ABC-123-x" <> "".
Proof.
  apply (extract_agrees_on_one_line "feature/ABC-123-x"). reflexivity.
Defined.

Lemma extract_under_directory_witness :
  extract_project_and_id ("feature" ++ "/" ++ "ABC-1-x")
  = extract_project_and_id "ABC-1-x".
Proof.
  apply (extract_under_directory "feature" "ABC-1-x").
  - reflexivity.
  - vm_compute. discriminate.
Defined.

Lemma extract_needs_letter_hyphen_digit_witness :
  extract_project_and_id "abc-123" = "" /\
  extract_project_and_id "ABC123" = "" /\
  extract_project_and_id "ABC-x" = "".
Proof.
  split; [|split].
  - apply (proj1 (extract_needs_letter_hyphen_digit "abc-123")). reflexivity.
  - apply (proj1 (proj2 (extract_needs_letter_hyphen_digit "ABC123"))). reflexivity.
  - apply (proj2 (proj2 (extract_needs_letter_hyphen_digit "ABC-x"))). reflexivity.
Defined.

Lemma extract_takes_all_digits_witness :
  exists pre trailing,
    "fix/ABC-123-x" = pre ++ extract_project_and_id "fix/ABC-123-x" ++ trailing /\
    is_prefix pre /\
    (trailing = "" \/ exists c r, trailing = String c r /\ digit c = false).
Proof.
  apply (extract_takes_all_digits "fix/ABC-123-x"). vm_compute. discriminate.
Defined.

Lemma format_message_shadowed_witness :
  format_message "https://j/browse" "see https://j/browse/ABC-12 first" "ABC-1"
    "branch name"
  = ret "see https://j/browse/ABC-12 first".
Proof.
  apply (format_message_shadowed "https://j/browse"
           "see https://j/browse/ABC-12 first" "ABC-1" "2" "branch name").
  now exists "see ", " first".
Defined.

Lemma format_message_blank_witness :
  snd (format_message "https://j/browse" ("  " ++ NL) "ABC-1" "branch name")
  = inr (NL ++ NL ++ ("https://j/browse" ++ "/" ++ "ABC-1") ++ NL).
Proof.
  apply (format_message_blank "https://j/browse" ("  " ++ NL) "ABC-1" "branch name").
  reflexivity.
Defined.

Lemma rewrite_ctx_index_error_witness :
  rewrite_ctx (mkClient (fun _ => inr []) ([("wip", 3%Z, "a1")], 5%Z))
    "https://j/browse" echo (mkCtx "default" "fix bug" tt) tt
  = ([CallBookmarks], inl IndexError).
Proof.
  apply (rewrite_ctx_index_error unit (Ctx unit) unit
           (mkClient (fun _ => inr []) ([("wip", 3%Z, "a1")], 5%Z))
           "https://j/browse" (mkCtx "default" "fix bug" tt) tt).
  - reflexivity.
  - simpl. lia.
  - reflexivity.
Defined.

Lemma rewrite_ctx_again_witness :
  let ctx := mkCtx "default" "fix bug" tt in
  exists notices message' quiet,
    (forall ev, In ev quiet -> ev = CallBookmarks) /\
    forall original : Ctx unit -> unit -> M (Ctx unit),
      rewrite_ctx marked "https://j/browse" original ctx tt =
      after notices (original (set_text ctx message') tt) /\
      rewrite_ctx marked "https://j/browse" original (set_text ctx message') tt =
      after quiet (original (set_text ctx message') tt).
Proof.
  intros ctx.
  exact (rewrite_ctx_again unit (Ctx unit) unit marked "https://j/browse" ctx tt
           marked_ok).
Defined.

Lemma rewrite_ctx_links_witness :
  let ctx := mkCtx "default" "fix bug" tt in
  exists notices message',
    occurs ("https://j/browse" ++ "/" ++ reference marked ctx) message' /\
    forall original : Ctx unit -> unit -> M (Ctx unit),
      rewrite_ctx marked "https://j/browse" original ctx tt =
      after notices (original (set_text ctx message') tt).
Proof.
  intros ctx.
  apply (rewrite_ctx_links unit (Ctx unit) unit marked "https://j/browse" ctx tt
           marked_ok).
  vm_compute. discriminate.
Defined.

Lemma rewrite_ctx_notice_witness :
  let ctx := mkCtx "default" "fix https://j/browse/XY-42" tt in
  let ctx' := mkCtx "default" "fix bug" tt in
  (exists quiet,
      (forall ev, In ev quiet -> ev = CallBookmarks) /\
      forall original : Ctx unit -> unit -> M (Ctx unit),
        rewrite_ctx marked "https://j/browse" original ctx tt =
        after quiet (original ctx tt)) /\
  (exists calls,
      (forall ev, In ev calls -> ev = CallBookmarks) /\
      forall original : Ctx unit -> unit -> M (Ctx unit),
        rewrite_ctx marked "https://j/browse" original ctx' tt =
        after
          (calls ++
           [Print (NL ++ "Appended JIRA '"
                      ++ ("https://j/browse" ++ "/" ++ reference marked ctx')
                      ++ "' to commit message (detected from "
                      ++ (if truthy (extract_project_and_id (branch ctx'))
                          then "branch name" else "bookmark name")
                      ++ ")." ++ NL)])
          (original
             (set_text ctx'
                (strip (_text ctx') ++ NL ++ NL
                 ++ ("https://j/browse" ++ "/" ++ reference marked ctx') ++ NL))
             tt)).
Proof.
  intros ctx ctx'. split.
  - apply (proj1 (rewrite_ctx_notice unit (Ctx unit) unit marked "https://j/browse"
                    ctx tt marked_ok)).
    right. now exists "fix ", "".
  - apply (proj2 (rewrite_ctx_notice unit (Ctx unit) unit marked "https://j/browse"
                    ctx' tt marked_ok)).
    + vm_compute. discriminate.
    + intros H. apply contains_iff in H. vm_compute in H. discriminate.
Defined.

Lemma install_present_witness :
  let client :=
    mkClient (fun _ => inr [("jira", "jira.user", "me");
                            ("ui", "jira.url", "https://first");
                            ("jira", "jira.url", "https://second")])
      ([], (-1)%Z) in
  let result := append_jira_commit_message client (mkRepo echo) in
  outcome result = ([CallConfig "jira"], inr tt) /\
  repo_after result =
    {| commitctx := rewrite_ctx client "https://first" echo |}.
Proof.
  intros client.
  apply (install_present unit (Ctx unit) unit client (mkRepo echo)
           [("jira", "jira.user", "me")] ("ui", "jira.url", "https://first")
           [("jira", "jira.url", "https://second")]).
  - reflexivity.
  - intros e [<- | []]. simpl. discriminate.
  - reflexivity.
Defined.

Lemma install_twice_witness :
  let ctx := mkCtx "default" "fix bug" tt in
  let once := repo_after (append_jira_commit_message marked (mkRepo echo)) in
  let twice := repo_after (append_jira_commit_message marked once) in
  exists notices message' quiet,
    (forall ev, In ev quiet -> ev = CallBookmarks) /\
    commitctx once ctx tt =
      after notices (echo (set_text ctx message') tt) /\
    commitctx twice ctx tt =
      after (notices ++ quiet) (echo (set_text ctx message') tt).
Proof.
  intros ctx.
  apply (install_twice unit (Ctx unit) unit marked (mkRepo echo)
           [] ("jira", "jira.url", "https://j/browse") [] ctx tt).
  - reflexivity.
  - intros e [].
  - reflexivity.
  - exact marked_ok.
Defined.

End MoreRuns.
